(** * SAML session cookies of the security dashboards plugin

    A shallow embedding of [server/auth/types/saml/saml_auth.ts]: the
    [SamlAuthentication] class with its session validator, its cookie
    factory, its handler for unauthenticated requests and the request-time
    reconstruction of the authorization header.

    JavaScript values are kept as values: [&&] and [||] return one of their
    operands, a condition tests truthiness, and a [try]/[catch] block is an
    error monad with a handler.  Calls into collaborating modules and into
    the logger are recorded in a trace, so that "the compressor was not
    invoked" is a statement about a run. *)

From Stdlib Require Import ZArith NArith String Ascii Strings.Byte List Lia.
From stdpp Require Import base option list strings gmap.
Import ListNotations.

Local Open Scope string_scope.
Local Open Scope Z_scope.

(** ** JavaScript values *)

Definition Buffer := list byte.

Inductive JsValue : Type :=
| JsUndefined
| JsNull
| JsBoolean (b : bool)
| JsNumber (n : Z)
| JsNaN
| JsString (s : string)
| JsBuffer (b : Buffer).

Definition string_is_empty (s : string) : bool :=
  match s with
  | EmptyString => true
  | String _ _ => false
  end.

(** ToBoolean: [undefined], [null], [false], [0], [NaN] and the empty
    string are falsy; every object, a Buffer included, is truthy. *)
Definition truthy (v : JsValue) : bool :=
  match v with
  | JsUndefined | JsNull | JsNaN => false
  | JsBoolean b => b
  | JsNumber n => negb (n =? 0)
  | JsString s => negb (string_is_empty s)
  | JsBuffer _ => true
  end.

(** [a && b] and [a || b] evaluate to one of the operands. *)
Definition js_and (a b : JsValue) : JsValue := if truthy a then b else a.
Definition js_or (a b : JsValue) : JsValue := if truthy a then a else b.

(** [v === s] for a string constant [s]. *)
Definition js_strict_eq_string (v : JsValue) (s : string) : bool :=
  match v with
  | JsString s' => String.eqb s' s
  | _ => false
  end.

(** A number is a double.  [JsNumber n] stands for the double whose value
    is the integer [n]; the integers up to [2 ^ 53] in magnitude are all
    doubles, and beyond them a double has 53 significant bits.
    [round_to_double] is the rounding of an integer to the nearest such
    double, ties to the even significand, within the range of the finite
    doubles. *)
Definition round_to_double (z : Z) : Z :=
  let m := Z.abs z in
  if m <? 2 ^ 53 then z
  else
    let ulp := 2 ^ (Z.log2 m - 52) in
    let q := m / ulp in
    let r := m mod ulp in
    let q' :=
      if 2 * r <? ulp then q
      else if ulp <? 2 * r then q + 1
      else if Z.even q then q else q + 1 in
    Z.sgn z * (q' * ulp).

(** [a + b] on numbers, as in [Date.now() + ttl]: the exact sum, rounded
    to a double. *)
Definition js_add (a b : JsValue) : JsValue :=
  match a, b with
  | JsNumber x, JsNumber y => JsNumber (round_to_double (x + y))
  | _, _ => JsNaN
  end.

Definition js_of_option_string (o : option string) : JsValue :=
  match o with
  | Some s => JsString s
  | None => JsUndefined
  end.

(** ** Exceptions, results and traced computations *)

Inductive Error : Type :=
| DecodeError
| CorruptFragmentSequence
| TypeError (msg : string)
| OtherError (msg : string).

Inductive Result (A : Type) : Type :=
| Ok (a : A)
| Err (e : Error).
Arguments Ok {A} a.
Arguments Err {A} e.

(** What a run does to the world outside the class: calls into the
    compression and cookie-splitting modules, and lines written to the
    logger. *)
Inductive Event : Type :=
| CallDeflate (input : JsValue)
| CallInflate (input : Buffer)
| CallUnsplit (cookieName : string)
| LogError (e : Error).

(** A computation yields the events it emitted and either a value or the
    exception that left it. *)
Definition M (A : Type) : Type := (list Event * Result A)%type.

Definition ret {A} (a : A) : M A := ([], Ok a).
Definition emit (ev : Event) : M unit := ([ev], Ok tt).

Definition bind {A B} (m : M A) (k : A -> M B) : M B :=
  match m with
  | (t, Ok a) => let '(t', r) := k a in ((t ++ t')%list, r)
  | (t, Err e) => (t, Err e)
  end.

(** [try { m } catch (error) { h error }] *)
Definition try_catch {A} (m : M A) (h : Error -> M A) : M A :=
  match m with
  | (t, Ok a) => (t, Ok a)
  | (t, Err e) => let '(t', r) := h e in ((t ++ t')%list, r)
  end.

(** A call of an imported function: the call is recorded, then the
    function's outcome is the computation's. *)
Definition call {A} (ev : Event) (outcome : Result A) : M A := ([ev], outcome).

Notation "'let*' x ':=' m 'in' k" := (bind m (fun x => k))
  (at level 10, x name, m at level 100, k at level 200).

Definition trace {A} (m : M A) : list Event := fst m.
Definition outcome {A} (m : M A) : Result A := snd m.

(** ** The session cookie and the request *)

(** [credentials] of a SAML session: the inline header value, or the
    compressed one whose text lives in the extra cookies. *)
Record Credentials : Type := {
  authHeaderValue : JsValue;
  authHeaderValueCompressed : JsValue
}.

Record SecuritySessionCookie : Type := {
  username : JsValue;
  credentials : option Credentials;
  authType : JsValue;
  expiryTime : JsValue
}.

(** [cookie.credentials?.field] *)
Definition credentials_field (cookie : SecuritySessionCookie)
    (field : Credentials -> JsValue) : JsValue :=
  match credentials cookie with
  | Some c => field c
  | None => JsUndefined
  end.

Record OpenSearchDashboardsRequest : Type := {
  headers : gmap string string;
  url_pathname : option string;
  state : gmap string string
}.

(** The part of the configuration that the class reads: the name of the
    session cookie and the session TTL, in whole milliseconds. *)
Record SecurityPluginConfigType : Type := {
  cookie_name : string;
  session_ttl : Z
}.

(** The two results of the authentication hook that the class produces:
    [toolkit.redirected(headers)] and [response.unauthorized()]. *)
Inductive AuthOutcome : Type :=
| ToolkitRedirected (responseHeaders : gmap string string)
| ResponseUnauthorized.

(** The status with which the framework answers them. *)
Definition statusCode (o : AuthOutcome) : Z :=
  match o with
  | ToolkitRedirected _ => 302
  | ResponseUnauthorized => 401
  end.

Definition AUTH_HEADER_NAME : string := "authorization".

(** ** [querystring.escape] of the Node platform

    Percent-encoding of a string given as its UTF-8 bytes: the characters
    [A-Z a-z 0-9 - _ . ! ~ * ' ( )] stay, every other byte becomes [%XX]
    with upper-case hexadecimal digits. *)
Module QueryString.

Definition in_range (lo hi c : ascii) : bool :=
  (nat_of_ascii lo <=? nat_of_ascii c)%nat && (nat_of_ascii c <=? nat_of_ascii hi)%nat.

Definition unreserved (c : ascii) : bool :=
  in_range "A" "Z" c || in_range "a" "z" c || in_range "0" "9" c
  || bool_decide (c ∈ ["-"; "_"; "."; "!"; "~"; "*"; "'"; "("; ")"]%char).

Definition hex_digit (n : nat) : ascii :=
  if (n <? 10)%nat then ascii_of_nat (48 + n) else ascii_of_nat (55 + n).

Definition percent (c : ascii) : string :=
  let n := nat_of_ascii c in
  String "%" (String (hex_digit (n / 16)) (String (hex_digit (n mod 16)) EmptyString)).

Fixpoint escape (s : string) : string :=
  match s with
  | EmptyString => EmptyString
  | String c rest =>
      (if unreserved c then String c EmptyString else percent c) +:+ escape rest
  end.

End QueryString.

(** ** The compression module, [server/utils/compression] *)
Module Compression.

(** Modelled from the spec: [deflateValue] and [inflateValue] of
    [server/utils/compression] are not part of the source tree.  The
    specification fixes their contract only: compression is a
    deterministic, lossless function from byte sequences to byte
    sequences, and decompression of malformed input fails with
    [DecodeError] instead of returning partial data.  The codec below is a
    run-length code that meets this contract: the compressed form is a
    sequence of pairs (count, byte) with a count between 1 and 255, closed
    by one zero byte.  [runs] gives the pairs. *)
Fixpoint runs (value : Buffer) : Buffer :=
  match value with
  | [] => []
  | b :: rest =>
      match runs rest with
      | n :: b' :: tl =>
          if Byte.eqb b b' then
            match Byte.of_N (N.succ (Byte.to_N n)) with
            | Some n' => n' :: b :: tl
            | None => x01 :: b :: n :: b' :: tl
            end
          else x01 :: b :: n :: b' :: tl
      | _ => [x01; b]
      end
  end.

(** Modelled from the spec: the compressed form, the pairs and the closing
    zero byte. *)
Definition deflateValue (value : Buffer) : Buffer := (runs value ++ [x00])%list.

(** Modelled from the spec: the inverse of [deflateValue].  A stream that
    lacks the closing zero byte, goes on behind it or has a dangling count
    is malformed; so is every stream that was cut short. *)
Fixpoint inflateValue (value : Buffer) : Result Buffer :=
  match value with
  | [] => Err DecodeError
  | [n] => if Byte.eqb n x00 then Ok [] else Err DecodeError
  | n :: b :: tl =>
      if Byte.eqb n x00 then Err DecodeError
      else
        match inflateValue tl with
        | Ok rest => Ok (repeat b (N.to_nat (Byte.to_N n)) ++ rest)%list
        | Err e => Err e
        end
  end.

End Compression.

(** ** The cookie splitter, [server/session/cookie_splitter] *)
Module CookieSplitter.

(** Modelled from the spec: a slot of the request is absent, or carries a
    text; the splitter leaves a trailing slot "empty/absent", so a slot that
    carries the empty text counts as absent. *)
Definition present (slot : option string) : bool :=
  match slot with
  | Some s => negb (string_is_empty s)
  | None => false
  end.

(** Modelled from the spec: the text carried by a slot. *)
Definition fragment (slot : option string) : string :=
  match slot with
  | Some s => s
  | None => EmptyString
  end.

(** Modelled from the spec: the joiner of [server/session/cookie_splitter]
    is not part of the source tree.  It concatenates the fragments in slot
    order; slots may be absent at the tail only, and a present fragment
    behind an absent slot is a [CorruptFragmentSequence]. *)
Fixpoint join (slots : list (option string)) : Result string :=
  match slots with
  | [] => Ok EmptyString
  | slot :: later =>
      if present slot then
        match join later with
        | Ok text => Ok (fragment slot +:+ text)
        | Err e => Err e
        end
      else if existsb present later then Err CorruptFragmentSequence
      else Ok EmptyString
  end.

(** Modelled from the spec: a chunk, the first [n] characters of a
    text. *)
Fixpoint take_text (n : nat) (text : string) : string :=
  match n, text with
  | S n', String c rest => String c (take_text n' rest)
  | _, _ => EmptyString
  end.

(** Modelled from the spec: the text behind the first chunk. *)
Fixpoint drop_text (n : nat) (text : string) : string :=
  match n, text with
  | S n', String _ rest => drop_text n' rest
  | _, _ => text
  end.

(** Modelled from the spec: the splitter of
    [server/session/cookie_splitter] is not part of the source tree.  It
    cuts the text into contiguous chunks of at most [capacity] characters,
    one per slot in order, leaves the trailing slots absent, and silently
    drops what does not fit into the [k] slots. *)
Fixpoint split (text : string) (capacity k : nat) : list (option string) :=
  match k with
  | O => []
  | S k' =>
      let chunk := take_text capacity text in
      (if string_is_empty chunk then None else Some chunk)
        :: split (drop_text capacity text) capacity k'
  end.

(** The text of a sequence of fragments, in slot order. *)
Definition concat_text (fragments : list string) : string :=
  foldr String.append EmptyString fragments.

(** A gap: an absent slot with a present fragment in a later slot. *)
Definition has_gap (slots : list (option string)) : Prop :=
  exists before gap between later_fragment after,
    slots = (before ++ gap :: between ++ later_fragment :: after)%list
    /\ present gap = false
    /\ present later_fragment = true.

(** The names of the extra cookies, as the constructor of the class
    registers them: the base name with the suffixes [_1] and [_2]. *)
Definition slot_names (cookieName : string) : list string :=
  [cookieName +:+ "_1"; cookieName +:+ "_2"].

(** Modelled from the spec: [unsplitCookiesIntoValue] of
    [server/session/cookie_splitter] is not part of the source tree.  It
    joins the extra cookies that the request carries, read by their fixed
    names. *)
Definition unsplitCookiesIntoValue
    (request : OpenSearchDashboardsRequest) (cookieName : string) : Result string :=
  join (map (fun name => state request !! name) (slot_names cookieName)).

End CookieSplitter.

(** ** [Buffer] of the Node platform *)
Module NodeBuffer.

Definition sextet (c : ascii) : option N :=
  let n := N_of_ascii c in
  if QueryString.in_range "A" "Z" c then Some (n - 65)%N
  else if QueryString.in_range "a" "z" c then Some (n - 71)%N
  else if QueryString.in_range "0" "9" c then Some (n + 4)%N
  else if bool_decide (c ∈ ["+"; "-"]%char) then Some 62%N
  else if bool_decide (c ∈ ["/"; "_"]%char) then Some 63%N
  else None.

(** Characters outside the alphabet are skipped, padding ends the text. *)
Fixpoint sextets (text : string) : list N :=
  match text with
  | EmptyString => []
  | String c rest =>
      if Ascii.eqb c "=" then []
      else match sextet c with
           | Some v => v :: sextets rest
           | None => sextets rest
           end
  end.

Definition octet (n : N) : byte :=
  match Byte.of_N (n mod 256) with
  | Some b => b
  | None => x00
  end.

Fixpoint octets (l : list N) : Buffer :=
  match l with
  | a :: b :: c :: d :: rest =>
      octet (a * 4 + b / 16) :: octet (b * 16 + c / 4) :: octet (c * 64 + d)
        :: octets rest
  | [a; b; c] => [octet (a * 4 + b / 16); octet (b * 16 + c / 4)]
  | [a; b] => [octet (a * 4 + b / 16)]
  | _ => []
  end.

(** [Buffer.from(text, 'base64')] *)
Definition from_base64 (text : string) : Result Buffer := Ok (octets (sextets text)).

(** The bytes of U+FFFD, which stands in for what is not UTF-8. *)
Definition replacement : Buffer := [xef; xbf; xbd].

(** The decoder of UTF-8 between two characters, or inside one: the bytes
    seen of it, the number of bytes still needed and the range the next
    byte has to lie in. *)
Inductive Utf8 : Type :=
| Utf8Idle
| Utf8Pending (seen : Buffer) (needed : nat) (lower upper : N).

Definition utf8_first (b : byte) : Buffer * Utf8 :=
  let n := Byte.to_N b in
  if (n <=? 127)%N then ([b], Utf8Idle)
  else if (194 <=? n)%N && (n <=? 223)%N then
    ([], Utf8Pending [b] 1 128 191)
  else if (224 <=? n)%N && (n <=? 239)%N then
    ([], Utf8Pending [b] 2 (if (n =? 224)%N then 160 else 128)
                           (if (n =? 237)%N then 159 else 191))
  else if (240 <=? n)%N && (n <=? 244)%N then
    ([], Utf8Pending [b] 3 (if (n =? 240)%N then 144 else 128)
                           (if (n =? 244)%N then 143 else 191))
  else (replacement, Utf8Idle).

Definition utf8_step (st : Utf8) (b : byte) : Buffer * Utf8 :=
  match st with
  | Utf8Idle => utf8_first b
  | Utf8Pending seen needed lower upper =>
      let n := Byte.to_N b in
      if (lower <=? n)%N && (n <=? upper)%N then
        match needed with
        | S (S k) => ([], Utf8Pending (seen ++ [b])%list (S k) 128 191)
        | _ => ((seen ++ [b])%list, Utf8Idle)
        end
      else
        let '(out, st') := utf8_first b in ((replacement ++ out)%list, st')
  end.

Fixpoint utf8_decode (st : Utf8) (bytes : Buffer) : Buffer :=
  match bytes with
  | [] =>
      match st with
      | Utf8Idle => []
      | Utf8Pending _ _ _ _ => replacement
      end
  | b :: rest =>
      let '(out, st') := utf8_step st b in (out ++ utf8_decode st' rest)%list
  end.

(** [buffer.toString()], on strings kept as their UTF-8 bytes: what is
    UTF-8 stays, every ill-formed part becomes U+FFFD. *)
Definition toString (buffer : Buffer) : Result string :=
  Ok (string_of_list_byte (utf8_decode Utf8Idle buffer)).

(** [Buffer.from(text)] *)
Definition from_string (text : string) : Buffer := list_byte_of_string text.

End NodeBuffer.

(** ** The class [SamlAuthentication] *)

(** What the class imports from modules that are not part of the source
    tree, and from the platform.  Each function that may throw returns a
    [Result]. *)
Record Imports : Type := {
  (** [AuthType.SAML] of [common] *)
  AuthType_SAML : string;
  (** [deflateValue], [inflateValue] of [server/utils/compression] *)
  deflateValue : JsValue -> Result Buffer;
  inflateValue : Buffer -> Result Buffer;
  (** [unsplitCookiesIntoValue] of [server/session/cookie_splitter] *)
  unsplitCookiesIntoValue : OpenSearchDashboardsRequest -> string -> Result string;
  (** [clearOldVersionCookieValue] of [server/session/security_cookie] *)
  clearOldVersionCookieValue : SecurityPluginConfigType -> string;
  (** [isPageRequest], inherited from [AuthenticationType] *)
  isPageRequest : OpenSearchDashboardsRequest -> bool;
  (** [Buffer.from(_, 'base64')] and [Buffer.prototype.toString] *)
  Buffer_from_base64 : string -> Result Buffer;
  Buffer_toString : Buffer -> Result string
}.

(** The fields of [this] that the methods read. *)
Record SamlAuthentication : Type := {
  config : SecurityPluginConfigType;
  serverBasePath : string;
  extraCookieName : string
}.

(** The [authInfo] object of the backend: only [user_name] is read. *)
Record AuthInfo : Type := {
  user_name : JsValue
}.

(** The constructor: the extra cookies are named after the session cookie. *)
Definition new_SamlAuthentication (cfg : SecurityPluginConfigType)
    (basePath : string) : SamlAuthentication :=
  {| config := cfg;
     serverBasePath := basePath;
     extraCookieName := cookie_name cfg +:+ "_saml" |}.

(** The states the constructor adds to the server. *)
Definition registeredStates (this : SamlAuthentication) : list string :=
  [extraCookieName this +:+ "_1"; extraCookieName this +:+ "_2"].

(** [pathname || fallback] on an optional string. *)
Definition or_default (pathname : option string) (fallback : string) : string :=
  match pathname with
  | Some p => if string_is_empty p then fallback else p
  | None => fallback
  end.

Definition LANDING_PATH : string := "/app/opensearch-dashboards".
Definition CAPTURE_PATH : string := "/auth/saml/captureUrlFragment?nextUrl=".

Section Methods.

Context (imports : Imports) (this : SamlAuthentication).

Definition generateNextUrl (request : OpenSearchDashboardsRequest) : string :=
  let path := serverBasePath this +:+ or_default (url_pathname request) LANDING_PATH in
  QueryString.escape path.

Definition redirectSAMlCapture (request : OpenSearchDashboardsRequest) : AuthOutcome :=
  let nextUrl := generateNextUrl request in
  let clearOldVersionCookie := clearOldVersionCookieValue imports (config this) in
  ToolkitRedirected
    (<["set-cookie" := clearOldVersionCookie]>
       {["location" := serverBasePath this +:+ CAPTURE_PATH +:+ nextUrl]}).

Definition requestIncludesAuthInfo (request : OpenSearchDashboardsRequest) : bool :=
  if truthy (js_of_option_string (headers request !! AUTH_HEADER_NAME)) then true else false.

Definition getAdditionalAuthHeader (request : OpenSearchDashboardsRequest)
    : gmap string JsValue := ∅.

(** [now] is the reading of [Date.now()]. *)
Definition getCookie (request : OpenSearchDashboardsRequest) (authInfo : AuthInfo)
    (now : Z) : M SecuritySessionCookie :=
  let header := js_of_option_string (headers request !! AUTH_HEADER_NAME) in
  let* compressed := call (CallDeflate header) (deflateValue imports header) in
  ret {| username := user_name authInfo;
         credentials := Some {| authHeaderValue := JsUndefined;
                                authHeaderValueCompressed := JsBuffer compressed |};
         authType := JsString (AuthType_SAML imports);
         expiryTime := js_add (JsNumber now) (JsNumber (session_ttl (config this))) |}.

(** The promise resolves to the value of the [&&] chain. *)
Definition isValidCookie (cookie : SecuritySessionCookie) : JsValue :=
  js_and
    (js_and
       (js_and
          (JsBoolean (js_strict_eq_string (authType cookie) (AuthType_SAML imports)))
          (username cookie))
       (expiryTime cookie))
    (js_or (credentials_field cookie authHeaderValue)
           (credentials_field cookie authHeaderValueCompressed)).

Definition handleUnauthedRequest (request : OpenSearchDashboardsRequest) : AuthOutcome :=
  if isPageRequest imports request then redirectSAMlCapture request
  else ResponseUnauthorized.

(** The body of the [try] block; its value is what is assigned to the
    authorization header. *)
Definition reconstruct (request : OpenSearchDashboardsRequest) : M string :=
  let* fullCookieValue :=
    call (CallUnsplit (extraCookieName this))
         (unsplitCookiesIntoValue imports request (extraCookieName this)) in
  let* decoded := ([], Buffer_from_base64 imports fullCookieValue) in
  let* inflatedFullCookieValue :=
    call (CallInflate decoded) (inflateValue imports decoded) in
  ([], Buffer_toString imports inflatedFullCookieValue).

Definition buildAuthHeaderFromCookie (cookie : SecuritySessionCookie)
    (request : OpenSearchDashboardsRequest) : M (gmap string JsValue) :=
  let headers : gmap string JsValue := ∅ in
  if truthy (credentials_field cookie authHeaderValueCompressed) then
    try_catch
      (let* text := reconstruct request in
       ret (<[AUTH_HEADER_NAME := JsString text]> headers))
      (fun error =>
         let* _ := emit (LogError error) in
         ret headers)
  else
    ret (<[AUTH_HEADER_NAME := credentials_field cookie authHeaderValue]> headers).

End Methods.

(** Whether the caller, which tests the resolved value as a condition,
    takes the cookie for a valid session. *)
Definition accepts (imports : Imports) (cookie : SecuritySessionCookie) : bool :=
  truthy (isValidCookie imports cookie).

(** Modelled from the spec: the imports, instantiated with the compression
    and cookie-splitter modules above over the platform's [Buffer]; the
    SAML tag, the value that clears the old cookie and the page classifier
    are left to the deployment. *)
Definition specImports (samlTag clearOld : string)
    (pageRequest : OpenSearchDashboardsRequest -> bool) : Imports :=
  {| AuthType_SAML := samlTag;
     deflateValue := fun v =>
       match v with
       | JsString s => Ok (Compression.deflateValue (NodeBuffer.from_string s))
       | _ => Err (TypeError "The first argument must be of type string")
       end;
     inflateValue := Compression.inflateValue;
     unsplitCookiesIntoValue := CookieSplitter.unsplitCookiesIntoValue;
     clearOldVersionCookieValue := fun _ => clearOld;
     isPageRequest := pageRequest;
     Buffer_from_base64 := NodeBuffer.from_base64;
     Buffer_toString := NodeBuffer.toString |}.

(** ** A deployment and some requests, for the scenarios *)
Module Scenario.

Definition config0 : SecurityPluginConfigType :=
  {| cookie_name := "security_authentication"; session_ttl := 3600000 |}.

Definition this0 : SamlAuthentication := new_SamlAuthentication config0 "/osd".

(** A sample value of [clearOldVersionCookieValue]. *)
Definition clearOld0 : string :=
  "security_authentication=; Max-Age=0; HttpOnly; Path=/".

(** A sample page classifier: pages live under [/app/], and [/] is one. *)
Definition pageRequest0 (request : OpenSearchDashboardsRequest) : bool :=
  let path := or_default (url_pathname request) "/" in
  String.prefix "/app/" path || String.eqb path "/".

Definition imports0 : Imports := specImports "saml" clearOld0 pageRequest0.

(** A credential of 50 bytes. *)
Definition credential50 : string :=
  "Bearer abcdefghijklmnopqrstuvwxyz0123456789ABCDEFG".

(** The login request: it carries the credential. *)
Definition login50 : OpenSearchDashboardsRequest :=
  {| headers := {[ "authorization" := credential50 ]};
     url_pathname := Some "/app/home";
     state := ∅ |}.

Definition admin : AuthInfo := {| user_name := JsString "admin" |}.

Definition now0 : Z := 1700000000000.

(** A session whose credential is said to live in the extra cookies. *)
Definition overflowCookie : SecuritySessionCookie :=
  {| username := JsString "admin";
     credentials := Some {| authHeaderValue := JsUndefined;
                            authHeaderValueCompressed :=
                              JsBuffer [x02; x61; x01; x62; x00] |};
     authType := JsString "saml";
     expiryTime := JsNumber 1700003600000 |}.

(** A session with the inline credential only, expired long ago. *)
Definition inlineCookie : SecuritySessionCookie :=
  {| username := JsString "admin";
     credentials := Some {| authHeaderValue := JsString "Bearer abc";
                            authHeaderValueCompressed := JsUndefined |};
     authType := JsString "saml";
     expiryTime := JsNumber 1000 |}.

(** Both extra cookies arrive: the base64 text of the compressed [aab]. *)
Definition bothSlots : OpenSearchDashboardsRequest :=
  {| headers := ∅;
     url_pathname := Some "/api/v1/configuration/account";
     state := {[ "security_authentication_saml_1" := "AmEB";
                 "security_authentication_saml_2" := "YgA=" ]} |}.

(** The second extra cookie is lost. *)
Definition secondSlotMissing : OpenSearchDashboardsRequest :=
  {| headers := ∅;
     url_pathname := Some "/api/v1/configuration/account";
     state := {[ "security_authentication_saml_1" := "AmEB" ]} |}.

(** The first extra cookie is lost, the second arrives. *)
Definition firstSlotMissing : OpenSearchDashboardsRequest :=
  {| headers := ∅;
     url_pathname := Some "/app/home";
     state := {[ "security_authentication_saml_2" := "YgA=" ]} |}.

(** A page request without a path. *)
Definition noPath : OpenSearchDashboardsRequest :=
  {| headers := ∅; url_pathname := None; state := ∅ |}.

End Scenario.

(** * Properties *)

(** ** Truthiness *)

Lemma truthy_js_and a b : truthy (js_and a b) = truthy a && truthy b.
Proof. unfold js_and. destruct (truthy a) eqn:Ha; simpl; [reflexivity | exact Ha]. Qed.

Lemma truthy_js_or a b : truthy (js_or a b) = truthy a || truthy b.
Proof. unfold js_or. destruct (truthy a) eqn:Ha; simpl; [exact Ha | reflexivity]. Qed.

Lemma string_is_empty_spec s : string_is_empty s = true <-> s = EmptyString.
Proof. destruct s; simpl; split; congruence. Qed.

Lemma truthy_string s : truthy (JsString s) = true <-> s <> EmptyString.
Proof.
  simpl. rewrite negb_true_iff, <- not_true_iff_false, string_is_empty_spec. tauto.
Qed.

Lemma truthy_number n : truthy (JsNumber n) = true <-> n <> 0.
Proof. simpl. rewrite negb_true_iff, Z.eqb_neq. tauto. Qed.

(** Safe integers are doubles: their sum, when safe, is exact. *)
Lemma round_to_double_safe z : Z.abs z < 2 ^ 53 -> round_to_double z = z.
Proof.
  intros Hsafe. unfold round_to_double. cbv zeta.
  destruct (Z.abs z <? 2 ^ 53) eqn:E; [reflexivity |].
  apply Z.ltb_ge in E. lia.
Qed.

(** Rounding to a double does not reach zero from elsewhere. *)
Lemma round_to_double_zero z : round_to_double z = 0 <-> z = 0.
Proof.
  unfold round_to_double. cbv zeta.
  destruct (Z.abs z <? 2 ^ 53) eqn:E; [tauto |].
  apply Z.ltb_ge in E.
  assert (Hbig : 2 ^ 53 > 0) by reflexivity.
  assert (Hm : 0 < Z.abs z) by lia.
  assert (Hlog : 53 <= Z.log2 (Z.abs z)).
  { change 53 with (Z.log2 (2 ^ 53)). apply Z.log2_le_mono, E. }
  pose proof (Z.log2_spec _ Hm) as [Hlow _].
  set (ulp := 2 ^ (Z.log2 (Z.abs z) - 52)).
  assert (Hulp : 0 < ulp) by (apply Z.pow_pos_nonneg; lia).
  assert (Hle : ulp <= Z.abs z).
  { etransitivity; [| exact Hlow]. apply Z.pow_le_mono_r; lia. }
  assert (Hq : 1 <= Z.abs z / ulp).
  { apply Z.div_le_lower_bound; lia. }
  split; [| intros ->; simpl in Hm; lia].
  intros Hzero. exfalso.
  assert (Hq' : 1 <=
    (if 2 * (Z.abs z mod ulp) <? ulp then Z.abs z / ulp
     else if ulp <? 2 * (Z.abs z mod ulp) then Z.abs z / ulp + 1
     else if Z.even (Z.abs z / ulp) then Z.abs z / ulp else Z.abs z / ulp + 1)).
  { repeat match goal with |- context [if ?b then _ else _] => destruct b end; lia. }
  apply Z.mul_eq_0 in Hzero as [Hsgn | Hprod].
  - apply Z.sgn_null_iff in Hsgn. lia.
  - apply Z.mul_eq_0 in Hprod as [? | ?]; lia.
Qed.

Lemma truthy_buffer b : truthy (JsBuffer b) = true.
Proof. reflexivity. Qed.

Lemma js_strict_eq_string_spec v s :
  js_strict_eq_string v s = true <-> v = JsString s.
Proof.
  destruct v; simpl; try (split; congruence).
  rewrite String.eqb_eq. split; congruence.
Qed.

(** ** The session validator *)

Lemma accepts_unfold imports cookie :
  accepts imports cookie =
    js_strict_eq_string (authType cookie) (AuthType_SAML imports)
    && truthy (username cookie)
    && truthy (expiryTime cookie)
    && (truthy (credentials_field cookie authHeaderValue)
        || truthy (credentials_field cookie authHeaderValueCompressed)).
Proof.
  unfold accepts, isValidCookie.
  rewrite !truthy_js_and, truthy_js_or. reflexivity.
Qed.

(** The value the promise resolves to is an operand of the chain, not a
    boolean: an accepted cookie yields its credential. *)
Lemma isValidCookie_value imports cookie :
  accepts imports cookie = true ->
  isValidCookie imports cookie =
    js_or (credentials_field cookie authHeaderValue)
          (credentials_field cookie authHeaderValueCompressed).
Proof.
  rewrite accepts_unfold, !andb_true_iff. intros [[[Ht Hu] He] _].
  unfold isValidCookie, js_and. simpl. rewrite Ht, Hu, He. reflexivity.
Qed.

(** Claim C2.  The validator accepts a cookie (the value its promise
    resolves to passes as true in the caller's condition) if and only if
    the cookie's authType is the SAML tag, its username is non-empty, its
    expiryTime is set and one of the two credential fields is populated,
    each of these as JavaScript tests it: [undefined], the empty string and
    the number 0 count as not set.  In particular a cookie with the SAML
    tag and an empty username is rejected, and a cookie that carries only
    the inline credential is accepted.  The validator is a total function
    of the cookie: no input makes it throw. *)
Theorem isValidCookie_accepts_iff imports cookie :
  (accepts imports cookie = true <->
     authType cookie = JsString (AuthType_SAML imports) /\
     truthy (username cookie) = true /\
     truthy (expiryTime cookie) = true /\
     (truthy (credentials_field cookie authHeaderValue) = true \/
      truthy (credentials_field cookie authHeaderValueCompressed) = true))
  /\ (authType cookie = JsString (AuthType_SAML imports) ->
      username cookie = JsString EmptyString ->
      accepts imports cookie = false)
  /\ (forall header,
        header <> EmptyString ->
        authType cookie = JsString (AuthType_SAML imports) ->
        truthy (username cookie) = true ->
        truthy (expiryTime cookie) = true ->
        credentials cookie =
          Some {| authHeaderValue := JsString header;
                  authHeaderValueCompressed := JsUndefined |} ->
        accepts imports cookie = true).
Proof.
  assert (Hiff : accepts imports cookie = true <->
     authType cookie = JsString (AuthType_SAML imports) /\
     truthy (username cookie) = true /\
     truthy (expiryTime cookie) = true /\
     (truthy (credentials_field cookie authHeaderValue) = true \/
      truthy (credentials_field cookie authHeaderValueCompressed) = true)).
  { rewrite accepts_unfold, !andb_true_iff, orb_true_iff, js_strict_eq_string_spec.
    tauto. }
  split; [exact Hiff | split].
  - intros Htag Hname. apply not_true_iff_false. intros Hacc.
    apply Hiff in Hacc as (_ & Hu & _). rewrite Hname in Hu. discriminate.
  - intros header Hne Htag Hu He Hcred. apply Hiff.
    repeat split; try assumption.
    left. unfold credentials_field. rewrite Hcred. simpl.
    apply truthy_string, Hne.
Qed.

(** Claim C4.  The validator does not consult the clock: a cookie that
    meets the structural conditions (SAML authType, non-empty username,
    expiryTime set, a credential field populated) is accepted whatever the
    current time is, also when its expiryTime lies before it. *)
Theorem isValidCookie_ignores_clock imports cookie (now expiry : Z) :
  authType cookie = JsString (AuthType_SAML imports) ->
  truthy (username cookie) = true ->
  expiryTime cookie = JsNumber expiry ->
  truthy (expiryTime cookie) = true ->
  (truthy (credentials_field cookie authHeaderValue) = true \/
   truthy (credentials_field cookie authHeaderValueCompressed) = true) ->
  expiry < now ->
  accepts imports cookie = true.
Proof.
  intros Htag Hu _ He Hcred _.
  rewrite accepts_unfold, !andb_true_iff, orb_true_iff, js_strict_eq_string_spec.
  tauto.
Qed.

(** ** The handler for unauthenticated requests *)

Lemma or_default_present p fallback :
  p <> EmptyString -> or_default (Some p) fallback = p.
Proof. destruct p; simpl; congruence. Qed.

Lemma or_default_absent pathname fallback :
  pathname = None \/ pathname = Some EmptyString ->
  or_default pathname fallback = fallback.
Proof. intros [-> | ->]; reflexivity. Qed.

Lemma redirect_location imports this request :
  redirectSAMlCapture imports this request =
    ToolkitRedirected
      {[ "set-cookie" := clearOldVersionCookieValue imports (config this);
         "location" := serverBasePath this +:+ CAPTURE_PATH
                         +:+ generateNextUrl this request ]}.
Proof. reflexivity. Qed.

(** Claim C5.  An unauthenticated request has one of two outcomes.  A page
    request is redirected to the capture endpoint, and the redirect carries
    the set-cookie instruction that clears the cookie of the old version;
    any other request gets the unauthorized response, status 401, which is
    no redirect. *)
Theorem handleUnauthedRequest_outcomes imports this request :
  (isPageRequest imports request = true ->
   handleUnauthedRequest imports this request =
     ToolkitRedirected
       {[ "set-cookie" := clearOldVersionCookieValue imports (config this);
          "location" := serverBasePath this
                          +:+ "/auth/saml/captureUrlFragment?nextUrl="
                          +:+ generateNextUrl this request ]})
  /\ (isPageRequest imports request = false ->
      handleUnauthedRequest imports this request = ResponseUnauthorized
      /\ statusCode (handleUnauthedRequest imports this request) = 401
      /\ forall responseHeaders,
           handleUnauthedRequest imports this request
             <> ToolkitRedirected responseHeaders).
Proof.
  unfold handleUnauthedRequest. split; intros ->.
  - apply redirect_location.
  - repeat split. intros responseHeaders. discriminate.
Qed.


(** ** Reconstruction of the authorization header *)

Lemma buildAuthHeaderFromCookie_compressed imports this cookie request :
  truthy (credentials_field cookie authHeaderValueCompressed) = true ->
  buildAuthHeaderFromCookie imports this cookie request =
    match reconstruct imports this request with
    | (t, Ok text) => (t, Ok {[ AUTH_HEADER_NAME := JsString text ]})
    | (t, Err e) => ((t ++ [LogError e])%list, Ok ∅)
    end.
Proof.
  intros Hset. unfold buildAuthHeaderFromCookie. rewrite Hset.
  destruct (reconstruct imports this request) as [t [text | e]]; simpl.
  - rewrite app_nil_r, insert_empty. reflexivity.
  - reflexivity.
Qed.

(** The reconstruction fails exactly when one of its four steps throws,
    and then with the error of that step. *)
Lemma reconstruct_failure_cases imports this request e :
  outcome (reconstruct imports this request) = Err e <->
    let joined := unsplitCookiesIntoValue imports request (extraCookieName this) in
    joined = Err e
    \/ exists text, joined = Ok text /\
         (Buffer_from_base64 imports text = Err e
          \/ exists decoded, Buffer_from_base64 imports text = Ok decoded /\
               (inflateValue imports decoded = Err e
                \/ exists inflated, inflateValue imports decoded = Ok inflated /\
                     Buffer_toString imports inflated = Err e)).
Proof.
  unfold reconstruct, call, bind, outcome. cbv zeta.
  destruct (unsplitCookiesIntoValue imports request (extraCookieName this))
    as [text | e1]; simpl.
  2: { split; [intros [= ->]; auto | intros [H | (? & H & _)]; congruence]. }
  destruct (Buffer_from_base64 imports text) as [decoded | e2] eqn:Hdecode; simpl.
  2: { split; [intros [= ->]; eauto 6 |].
       intros [H | (? & [= <-] & [H | (? & H & _)])]; congruence. }
  destruct (inflateValue imports decoded) as [inflated | e3] eqn:Hinflate; simpl.
  2: { split; [intros [= ->]; eauto 10 |].
       intros [H | (? & [= <-] & [H | (? & H1 & [H | (? & H & _)])])];
         congruence. }
  split; [intros H; eauto 12 |].
  intros [H | (? & [= <-] & [H | (? & H1 & [H | (? & H2 & H)])])];
    congruence.
Qed.

(** The method returns to its caller on every input. *)
Lemma buildAuthHeaderFromCookie_returns imports this cookie request :
  exists responseHeaders,
    outcome (buildAuthHeaderFromCookie imports this cookie request)
      = Ok responseHeaders.
Proof.
  destruct (truthy (credentials_field cookie authHeaderValueCompressed)) eqn:Hset.
  - rewrite buildAuthHeaderFromCookie_compressed by exact Hset.
    destruct (reconstruct imports this request) as [t [text | e]]; eauto.
  - unfold buildAuthHeaderFromCookie. rewrite Hset. eauto.
Qed.

(** Claim C1.  When the compressed credential of the cookie is set and the
    reconstruction (joining the extra cookies of the request, decoding the
    base64 text, decompressing) fails with whatever error, the error is
    written to the logger, the header map that is returned is empty, and
    the method returns normally: nothing is thrown to the caller. *)
Theorem buildAuthHeaderFromCookie_failure imports this cookie request e :
  truthy (credentials_field cookie authHeaderValueCompressed) = true ->
  outcome (reconstruct imports this request) = Err e ->
  buildAuthHeaderFromCookie imports this cookie request =
    ((trace (reconstruct imports this request) ++ [LogError e])%list, Ok ∅).
Proof.
  intros Hset Hfail.
  rewrite buildAuthHeaderFromCookie_compressed by exact Hset.
  destruct (reconstruct imports this request) as [t r]. simpl in *.
  subst r. reflexivity.
Qed.

(** Claim C7.  When the compressed credential of the cookie is not set, the
    header map has one entry, the authorization header with the inline
    credential of the cookie as it is; neither the joiner nor the
    compressor is called, and nothing is logged. *)
Theorem buildAuthHeaderFromCookie_inline imports this cookie request :
  truthy (credentials_field cookie authHeaderValueCompressed) = false ->
  buildAuthHeaderFromCookie imports this cookie request =
    ([], Ok {[ "authorization" := credentials_field cookie authHeaderValue ]}).
Proof.
  intros Hunset. unfold buildAuthHeaderFromCookie. rewrite Hunset.
  unfold ret. rewrite insert_empty. reflexivity.
Qed.

(** ** The compression module *)

Lemma inflateValue_run n b tl :
  Compression.inflateValue (n :: b :: tl) =
    if Byte.eqb n x00 then Err DecodeError
    else match Compression.inflateValue tl with
         | Ok rest => Ok (repeat b (N.to_nat (Byte.to_N n)) ++ rest)%list
         | Err e => Err e
         end.
Proof. reflexivity. Qed.

Lemma runs_cons b rest :
  Compression.runs (b :: rest) =
    match Compression.runs rest with
    | n :: b' :: tl =>
        if Byte.eqb b b' then
          match Byte.of_N (N.succ (Byte.to_N n)) with
          | Some n' => n' :: b :: tl
          | None => x01 :: b :: n :: b' :: tl
          end
        else x01 :: b :: n :: b' :: tl
    | _ => [x01; b]
    end.
Proof. reflexivity. Qed.

(** A run of one byte in front of a well-formed stream. *)
Lemma inflateValue_single b stream rest :
  Compression.inflateValue stream = Ok rest ->
  Compression.inflateValue (x01 :: b :: stream) = Ok (b :: rest).
Proof. intros H. rewrite inflateValue_run, H. reflexivity. Qed.

Lemma byte_nonzero n : Byte.to_N n <> 0%N -> Byte.eqb n x00 = false.
Proof.
  intros H. destruct (Byte.eqb n x00) eqn:E; [| reflexivity].
  apply Byte.byte_dec_bl in E. subst n. contradiction H. reflexivity.
Qed.

(** A run that grows by one byte. *)
Lemma inflateValue_grow n n' b tl rest :
  Byte.of_N (N.succ (Byte.to_N n)) = Some n' ->
  Compression.inflateValue (n :: b :: tl) = Ok rest ->
  Compression.inflateValue (n' :: b :: tl) = Ok (b :: rest).
Proof.
  intros Hn'. apply Byte.to_of_N in Hn'.
  rewrite !inflateValue_run.
  destruct (Byte.eqb n x00); [discriminate |].
  rewrite byte_nonzero by (rewrite Hn'; apply N.neq_succ_0).
  destruct (Compression.inflateValue tl) as [r | e]; [| discriminate].
  intros [= <-]. rewrite Hn', N2Nat.inj_succ. reflexivity.
Qed.

Lemma inflate_deflate value :
  Compression.inflateValue (Compression.deflateValue value) = Ok value.
Proof.
  unfold Compression.deflateValue.
  induction value as [| b rest IH]; [reflexivity |].
  rewrite runs_cons.
  destruct (Compression.runs rest) as [| n [| b' tl]] eqn:Hd.
  - injection IH as <-. reflexivity.
  - simpl in IH. destruct (Byte.eqb n x00); discriminate IH.
  - destruct (Byte.eqb b b') eqn:Hb.
    + apply Byte.byte_dec_bl in Hb. subst b'.
      destruct (Byte.of_N (N.succ (Byte.to_N n))) as [n' |] eqn:Hn'.
      * apply (inflateValue_grow n n' b (tl ++ [x00])%list rest Hn'), IH.
      * apply (inflateValue_single b ((n :: b :: tl) ++ [x00])%list), IH.
    + apply (inflateValue_single b ((n :: b' :: tl) ++ [x00])%list), IH.
Qed.

(** The decompressor fails with [DecodeError] and nothing else. *)
Lemma inflateValue_error stream e :
  Compression.inflateValue stream = Err e -> e = DecodeError.
Proof.
  remember (length stream) as k eqn:Hk.
  revert stream Hk e.
  induction k as [k IH] using lt_wf_ind. intros stream Hk e.
  destruct stream as [| n [| b tl]].
  - intros [= <-]. reflexivity.
  - simpl. destruct (Byte.eqb n x00); intros [= <-]. reflexivity.
  - rewrite inflateValue_run.
    destruct (Byte.eqb n x00); [intros [= <-]; reflexivity |].
    destruct (Compression.inflateValue tl) as [r | e'] eqn:Htl; [discriminate |].
    intros [= <-]. apply (IH (length tl)) in Htl; [exact Htl | | reflexivity].
    subst k. simpl. lia.
Qed.

(** A stream that was cut short does not decompress: when a stream
    decompresses, none of its proper prefixes does. *)
Lemma inflateValue_cut (front back value : Buffer) :
  back <> [] ->
  Compression.inflateValue (front ++ back)%list = Ok value ->
  Compression.inflateValue front = Err DecodeError.
Proof.
  intros Hback.
  remember (length front) as k eqn:Hk.
  revert front Hk value.
  induction k as [k IH] using lt_wf_ind. intros front Hk value.
  destruct front as [| n [| b tl]].
  - reflexivity.
  - destruct back as [| b tl]; [contradiction |].
    change (([n] ++ b :: tl)%list) with (n :: b :: tl).
    rewrite inflateValue_run. simpl.
    destruct (Byte.eqb n x00); [discriminate | reflexivity].
  - change (((n :: b :: tl) ++ back)%list) with (n :: b :: (tl ++ back))%list.
    rewrite !inflateValue_run.
    destruct (Byte.eqb n x00); [discriminate |].
    destruct (Compression.inflateValue (tl ++ back)%list) as [r | e] eqn:Htl;
      [| discriminate].
    intros _. rewrite (IH (length tl)) with (value := r); try reflexivity.
    + subst k. simpl. lia.
    + exact Htl.
Qed.

(** In particular a compressed credential of which only a front part
    arrives does not decompress. *)
Lemma inflateValue_deflateValue_cut (value front back : Buffer) :
  back <> [] ->
  Compression.deflateValue value = (front ++ back)%list ->
  Compression.inflateValue front = Err DecodeError.
Proof.
  intros Hback Hsplit. apply (inflateValue_cut front back value Hback).
  rewrite <- Hsplit. apply inflate_deflate.
Qed.

(** Claim C8.  Decompressing what compression produced gives back the
    byte sequence, the empty one included, and compression is a function
    of its input: equal inputs have equal compressed forms. *)
Theorem inflateValue_deflateValue :
  (forall B : Buffer,
     Compression.inflateValue (Compression.deflateValue B) = Ok B)
  /\ Compression.inflateValue (Compression.deflateValue []) = Ok []
  /\ (forall B B' : Buffer,
        B = B' -> Compression.deflateValue B = Compression.deflateValue B').
Proof.
  split; [exact inflate_deflate | split].
  - apply inflate_deflate.
  - intros B B' ->. reflexivity.
Qed.

(** ** The cookie joiner *)

Lemma join_cons slot later :
  CookieSplitter.join (slot :: later) =
    if CookieSplitter.present slot then
      match CookieSplitter.join later with
      | Ok text => Ok (CookieSplitter.fragment slot +:+ text)
      | Err e => Err e
      end
    else if existsb CookieSplitter.present later then Err CorruptFragmentSequence
    else Ok EmptyString.
Proof. reflexivity. Qed.

Lemma join_all_absent slots :
  existsb CookieSplitter.present slots = false ->
  CookieSplitter.join slots = Ok EmptyString.
Proof.
  destruct slots as [| slot later]; [reflexivity |].
  simpl existsb. intros [Hslot Hlater]%orb_false_iff.
  rewrite join_cons, Hslot, Hlater. reflexivity.
Qed.

(** Fragments followed by absent slots only: the text is the
    concatenation of the fragments. *)
Lemma join_tail_absent fragments n :
  Forall (fun s => s <> EmptyString) fragments ->
  CookieSplitter.join (map Some fragments ++ replicate n None)
    = Ok (CookieSplitter.concat_text fragments).
Proof.
  induction 1 as [| s fragments Hs _ IH]; simpl app.
  - apply join_all_absent. induction n; [reflexivity | assumption].
  - rewrite join_cons, IH. simpl CookieSplitter.present.
    apply truthy_string in Hs. simpl in Hs. rewrite Hs. reflexivity.
Qed.

Lemma join_gap slots :
  CookieSplitter.has_gap slots ->
  CookieSplitter.join slots = Err CorruptFragmentSequence.
Proof.
  intros (before & gap & between & f & after & -> & Hgap & Hf).
  assert (Hlater : forall pre,
    existsb CookieSplitter.present (pre ++ f :: after) = true).
  { intros pre. rewrite existsb_app. simpl. rewrite Hf, orb_true_r. reflexivity. }
  induction before as [| slot before IH]; simpl app.
  - rewrite join_cons, Hgap, Hlater. reflexivity.
  - rewrite join_cons, IH.
    destruct (CookieSplitter.present slot); [reflexivity |].
    replace (before ++ gap :: between ++ f :: after)%list
      with ((before ++ gap :: between) ++ f :: after)%list
      by (rewrite <- app_assoc; reflexivity).
    rewrite Hlater. reflexivity.
Qed.

Lemma has_gap_cons slot later :
  CookieSplitter.has_gap later -> CookieSplitter.has_gap (slot :: later).
Proof.
  intros (before & gap & between & f & after & -> & Hgap & Hf).
  exists (slot :: before), gap, between, f, after. auto.
Qed.

Lemma has_gap_head slot later :
  CookieSplitter.present slot = false ->
  existsb CookieSplitter.present later = true ->
  CookieSplitter.has_gap (slot :: later).
Proof.
  intros Hslot (f & Hin & Hf)%existsb_exists.
  apply in_split in Hin as (between & after & ->).
  exists [], slot, between, f, after. auto.
Qed.

Lemma join_no_gap slots :
  ~ CookieSplitter.has_gap slots ->
  exists text, CookieSplitter.join slots = Ok text.
Proof.
  induction slots as [| slot later IH]; intros Hno; [eexists; reflexivity |].
  rewrite join_cons.
  destruct (CookieSplitter.present slot) eqn:Hslot.
  - destruct IH as [text ->]; [| eauto].
    intros Hgap. apply Hno, has_gap_cons, Hgap.
  - destruct (existsb CookieSplitter.present later) eqn:Hlater; [| eauto].
    destruct Hno. apply has_gap_head; assumption.
Qed.

(** ** The cookie splitter *)

Lemma take_drop_text n text :
  CookieSplitter.take_text n text +:+ CookieSplitter.drop_text n text = text.
Proof.
  revert text. induction n as [| n IH]; intros [| c rest]; try reflexivity.
  change (String c (CookieSplitter.take_text n rest +:+ CookieSplitter.drop_text n rest)
          = String c rest).
  rewrite IH. reflexivity.
Qed.

Lemma length_drop_text n text :
  String.length (CookieSplitter.drop_text n text) = (String.length text - n)%nat.
Proof.
  revert text. induction n as [| n IH]; intros [| c rest]; simpl; try reflexivity.
  apply IH.
Qed.

Lemma split_empty capacity k :
  CookieSplitter.split EmptyString capacity k = replicate k None.
Proof.
  induction k as [| k IH]; [reflexivity |].
  simpl. destruct capacity; simpl; rewrite IH; reflexivity.
Qed.

Lemma existsb_present_absent k :
  existsb CookieSplitter.present (replicate k None) = false.
Proof. induction k; [reflexivity | assumption]. Qed.

(** What the splitter wrote into enough slots, the joiner reads back. *)
Lemma join_split text capacity k :
  (0 < capacity)%nat ->
  (String.length text <= capacity * k)%nat ->
  CookieSplitter.join (CookieSplitter.split text capacity k) = Ok text.
Proof.
  intros Hcap. revert text.
  induction k as [| k IH]; intros text Hfit.
  - destruct text; [reflexivity | simpl in Hfit; lia].
  - destruct text as [| c rest].
    + rewrite split_empty. apply join_all_absent, existsb_present_absent.
    + destruct capacity as [| capacity]; [lia |].
      cbn [CookieSplitter.split]. rewrite join_cons.
      cbn [CookieSplitter.take_text string_is_empty CookieSplitter.present
           CookieSplitter.fragment negb].
      rewrite IH.
      * change (String c (CookieSplitter.take_text capacity rest))
          with (CookieSplitter.take_text (S capacity) (String c rest)).
        rewrite take_drop_text. reflexivity.
      * rewrite length_drop_text. lia.
Qed.

(** Claim C9.  The joiner concatenates the fragments in slot order.  Slots
    that are absent at the tail only are tolerated, and the text of the
    fragments in front of them is returned, which is the original text
    when the splitter wrote the slots; a gap, an absent slot in front of a
    present one, makes the joiner signal [CorruptFragmentSequence] and
    return no text.  So the joiner returns a text exactly when there is no
    gap. *)
Theorem join_tolerates_tail_absence_only :
  (forall fragments n,
     Forall (fun s => s <> EmptyString) fragments ->
     CookieSplitter.join (map Some fragments ++ replicate n None)
       = Ok (CookieSplitter.concat_text fragments))
  /\ (forall text capacity k,
        (0 < capacity)%nat ->
        (String.length text <= capacity * k)%nat ->
        CookieSplitter.join (CookieSplitter.split text capacity k) = Ok text)
  /\ (forall slots,
        CookieSplitter.has_gap slots ->
        CookieSplitter.join slots = Err CorruptFragmentSequence)
  /\ (forall slots,
        (exists text, CookieSplitter.join slots = Ok text)
        <-> ~ CookieSplitter.has_gap slots).
Proof.
  split; [exact join_tail_absent |].
  split; [exact join_split |].
  split; [exact join_gap |].
  intros slots. split.
  - intros [text Hok] Hgap. apply join_gap in Hgap. congruence.
  - apply join_no_gap.
Qed.

(** The extra cookies are read under the names the constructor
    registered. *)
Lemma registeredStates_slot_names this :
  registeredStates this = CookieSplitter.slot_names (extraCookieName this).
Proof. reflexivity. Qed.

(** ** The cookie factory *)

Lemma getCookie_run imports this request authInfo now credential compressed :
  headers request !! AUTH_HEADER_NAME = Some credential ->
  deflateValue imports (JsString credential) = Ok compressed ->
  getCookie imports this request authInfo now =
    ([CallDeflate (JsString credential)],
     Ok {| username := user_name authInfo;
           credentials := Some {| authHeaderValue := JsUndefined;
                                  authHeaderValueCompressed := JsBuffer compressed |};
           authType := JsString (AuthType_SAML imports);
           expiryTime :=
             JsNumber (round_to_double (now + session_ttl (config this))) |}).
Proof.
  intros Hheader Hdeflate. unfold getCookie.
  rewrite Hheader. simpl js_of_option_string. unfold call, bind.
  rewrite Hdeflate. reflexivity.
Qed.

(** Claim C3, as the code has it.  The cookie factory stores every
    credential in compressed form, a small one of 50 bytes like any other:
    it calls the compressor once on the authorization header and nothing
    else, the cookie it creates carries the compressed credential, and the
    inline field of that cookie stays unset.  The factory decides the
    representation, and it is always the compressed one. *)
Theorem getCookie_always_compresses
    imports this request authInfo now credential compressed :
  headers request !! "authorization" = Some credential ->
  deflateValue imports (JsString credential) = Ok compressed ->
  exists cookie,
    getCookie imports this request authInfo now
      = ([CallDeflate (JsString credential)], Ok cookie)
    /\ credentials cookie =
         Some {| authHeaderValue := JsUndefined;
                 authHeaderValueCompressed := JsBuffer compressed |}
    /\ truthy (credentials_field cookie authHeaderValue) = false
    /\ truthy (credentials_field cookie authHeaderValueCompressed) = true.
Proof.
  intros Hheader Hdeflate. eexists. split.
  - apply getCookie_run; eassumption.
  - repeat split.
Qed.

(** The validator on a cookie of the factory: the tag and the compressed
    credential pass, the user name and the expiry time decide. *)
Lemma accepts_fresh_cookie imports name compressed expiry :
  accepts imports
    {| username := name;
       credentials := Some {| authHeaderValue := JsUndefined;
                              authHeaderValueCompressed := JsBuffer compressed |};
       authType := JsString (AuthType_SAML imports);
       expiryTime := JsNumber (round_to_double expiry) |}
    = truthy name && negb (expiry =? 0).
Proof.
  rewrite accepts_unfold. simpl.
  rewrite String.eqb_refl, andb_true_r. simpl. f_equal. f_equal.
  destruct (Z.eqb_spec expiry 0) as [-> | Hne]; [reflexivity |].
  apply Z.eqb_neq. rewrite round_to_double_zero. exact Hne.
Qed.

(** Claim C10, as the code has it.  The cookie that the factory creates
    for a request with an authorization header has the SAML tag as its
    authType, carries the compressed credential and no inline one, and
    expires at the time of creation plus the session TTL: the sum as a
    JavaScript number, which is the exact sum when that is a safe integer.
    The validator accepts the fresh cookie exactly when the user name is
    non-empty and the time of creation plus the TTL is not zero. *)
Theorem getCookie_fresh_cookie
    imports this request authInfo now credential compressed :
  headers request !! "authorization" = Some credential ->
  deflateValue imports (JsString credential) = Ok compressed ->
  exists cookie,
    getCookie imports this request authInfo now
      = ([CallDeflate (JsString credential)], Ok cookie)
    /\ authType cookie = JsString (AuthType_SAML imports)
    /\ credentials_field cookie authHeaderValueCompressed = JsBuffer compressed
    /\ credentials_field cookie authHeaderValue = JsUndefined
    /\ expiryTime cookie
         = JsNumber (round_to_double (now + session_ttl (config this)))
    /\ (Z.abs (now + session_ttl (config this)) < 2 ^ 53 ->
        expiryTime cookie = JsNumber (now + session_ttl (config this)))
    /\ (accepts imports cookie = true <->
        truthy (user_name authInfo) = true
        /\ now + session_ttl (config this) <> 0).
Proof.
  intros Hheader Hdeflate. eexists. split.
  - apply getCookie_run; eassumption.
  - split; [reflexivity |]. split; [reflexivity |]. split; [reflexivity |].
    split; [reflexivity |]. split.
    + simpl. intros Hsafe. rewrite round_to_double_safe by exact Hsafe.
      reflexivity.
    + rewrite accepts_fresh_cookie, andb_true_iff, negb_true_iff, Z.eqb_neq.
      tauto.
Qed.

(** * Scenarios *)

Import Scenario.

Example credential50_length : String.length credential50 = 50%nat.
Proof. reflexivity. Qed.

(** Claim C3 as stated fails at a login with a credential of 50
    bytes: the compressor is called on that credential, the cookie
    carries the compressed form and its inline field is unset, so the
    credential is not stored inline with the compressor bypassed. *)
Lemma getCookie_small_credential_not_inline :
  (exists cookie compressed,
     getCookie imports0 this0 login50 admin now0
       = ([CallDeflate (JsString credential50)], Ok cookie)
     /\ credentials_field cookie authHeaderValue = JsUndefined
     /\ credentials_field cookie authHeaderValueCompressed = JsBuffer compressed)
  /\ ~ (exists cookie,
          outcome (getCookie imports0 this0 login50 admin now0) = Ok cookie
          /\ credentials_field cookie authHeaderValue = JsString credential50
          /\ forall input,
               ~ In (CallDeflate input)
                    (trace (getCookie imports0 this0 login50 admin now0))).
Proof.
  split.
  - do 2 eexists. split; [vm_compute; reflexivity | split; reflexivity].
  - intros (cookie & Hout & Hinline & _).
    vm_compute in Hout. injection Hout as <-. discriminate Hinline.
Qed.

Lemma getCookie_always_compresses_witness :
  headers login50 !! "authorization" = Some credential50
  /\ exists cookie,
       getCookie imports0 this0 login50 admin now0
         = ([CallDeflate (JsString credential50)], Ok cookie)
       /\ credentials cookie =
            Some {| authHeaderValue := JsUndefined;
                    authHeaderValueCompressed :=
                      JsBuffer (Compression.deflateValue
                                  (NodeBuffer.from_string credential50)) |}
       /\ truthy (credentials_field cookie authHeaderValue) = false
       /\ truthy (credentials_field cookie authHeaderValueCompressed) = true.
Proof.
  split; [reflexivity |].
  apply (getCookie_always_compresses imports0 this0 login50 admin now0
           credential50); reflexivity.
Defined.

Lemma getCookie_fresh_cookie_witness :
  exists cookie,
    getCookie imports0 this0 login50 admin now0
      = ([CallDeflate (JsString credential50)], Ok cookie)
    /\ expiryTime cookie = JsNumber 1700003600000
    /\ accepts imports0 cookie = true.
Proof.
  destruct (getCookie_fresh_cookie imports0 this0 login50 admin now0
              credential50 _ eq_refl eq_refl)
    as (cookie & Hrun & _ & _ & _ & _ & Hsafe & Hacc).
  exists cookie. split; [exact Hrun |].
  split; [apply Hsafe; reflexivity |].
  apply Hacc. split; [reflexivity | discriminate].
Defined.

(** Claim C10 as stated fails when the session TTL takes the expiry time
    to zero: the factory creates the cookie for the non-empty user name
    [admin], with the SAML tag and the compressed credential, and the
    validator rejects it. *)
Lemma getCookie_zero_expiry_rejected :
  exists cookie,
    getCookie imports0
      (new_SamlAuthentication
         {| cookie_name := "security_authentication";
            session_ttl := -1700000000000 |} "/osd")
      login50 admin now0
      = ([CallDeflate (JsString credential50)], Ok cookie)
    /\ truthy (user_name admin) = true
    /\ authType cookie = JsString "saml"
    /\ truthy (credentials_field cookie authHeaderValueCompressed) = true
    /\ expiryTime cookie = JsNumber 0
    /\ accepts imports0 cookie = false.
Proof.
  eexists. split; [vm_compute; reflexivity |].
  repeat split.
Qed.

(** Beyond the safe integers the sum is rounded, as a double is. *)
Example expiry_rounds_to_double :
  js_add (JsNumber 1700000000000) (JsNumber 9007199254740991)
    = JsNumber 9008899254740992
  /\ js_add (JsNumber 9007199254740992) (JsNumber 1) = JsNumber 9007199254740992
  /\ js_add (JsNumber 9007199254740992) (JsNumber 3) = JsNumber 9007199254740996
  /\ js_add (JsNumber (-9007199254740992)) (JsNumber (-3))
       = JsNumber (-9007199254740996).
Proof. repeat split. Qed.

Lemma isValidCookie_accepts_iff_witness :
  accepts imports0 inlineCookie = true
  /\ accepts imports0
       {| username := JsString EmptyString;
          credentials := credentials inlineCookie;
          authType := JsString "saml";
          expiryTime := expiryTime inlineCookie |} = false.
Proof.
  split.
  - apply (proj2 (proj2 (isValidCookie_accepts_iff imports0 inlineCookie))
             "Bearer abc"); try reflexivity. discriminate.
  - apply (proj1 (proj2 (isValidCookie_accepts_iff imports0 _))); reflexivity.
Defined.

Lemma isValidCookie_ignores_clock_witness :
  1000 < now0 /\ accepts imports0 inlineCookie = true.
Proof.
  split; [reflexivity |].
  apply (isValidCookie_ignores_clock imports0 inlineCookie now0 1000);
    try reflexivity. left. reflexivity.
Defined.

Lemma handleUnauthedRequest_outcomes_witness :
  handleUnauthedRequest imports0 this0 login50 =
    ToolkitRedirected
      {[ "set-cookie" := clearOld0;
         "location" := "/osd/auth/saml/captureUrlFragment?nextUrl=%2Fosd%2Fapp%2Fhome" ]}
  /\ handleUnauthedRequest imports0 this0 bothSlots = ResponseUnauthorized.
Proof.
  split.
  - apply (proj1 (handleUnauthedRequest_outcomes imports0 this0 login50)).
    reflexivity.
  - apply (proj2 (handleUnauthedRequest_outcomes imports0 this0 bothSlots)).
    reflexivity.
Defined.


Lemma buildAuthHeaderFromCookie_failure_witness :
  outcome (reconstruct imports0 this0 firstSlotMissing) = Err CorruptFragmentSequence
  /\ buildAuthHeaderFromCookie imports0 this0 overflowCookie firstSlotMissing =
       ([CallUnsplit "security_authentication_saml";
         LogError CorruptFragmentSequence], Ok ∅).
Proof.
  split; [vm_compute; reflexivity |].
  apply (buildAuthHeaderFromCookie_failure imports0 this0 overflowCookie
           firstSlotMissing CorruptFragmentSequence);
    vm_compute; reflexivity.
Defined.

Lemma buildAuthHeaderFromCookie_inline_witness :
  buildAuthHeaderFromCookie imports0 this0 inlineCookie bothSlots =
    ([], Ok {[ "authorization" := JsString "Bearer abc" ]}).
Proof.
  apply (buildAuthHeaderFromCookie_inline imports0 this0 inlineCookie bothSlots).
  reflexivity.
Defined.

Lemma inflateValue_deflateValue_witness :
  Compression.inflateValue
    (Compression.deflateValue (NodeBuffer.from_string credential50))
    = Ok (NodeBuffer.from_string credential50)
  /\ Compression.deflateValue [x61; x61; x62] = Compression.deflateValue [x61; x61; x62].
Proof.
  split.
  - apply (proj1 inflateValue_deflateValue).
  - apply (proj2 (proj2 inflateValue_deflateValue)). reflexivity.
Defined.

Lemma join_tolerates_tail_absence_only_witness :
  CookieSplitter.join [Some "AmEB"; Some "Yg=="; None] = Ok "AmEBYg=="
  /\ CookieSplitter.join [None; Some "Yg=="] = Err CorruptFragmentSequence.
Proof.
  split.
  - apply (proj1 join_tolerates_tail_absence_only ["AmEB"; "Yg=="] 1%nat).
    repeat constructor; discriminate.
  - apply (proj1 (proj2 (proj2 join_tolerates_tail_absence_only))).
    exists [], None, [], (Some "Yg=="), []. repeat split.
Defined.

(** Scenario B in the small: both extra cookies arrive and the header is
    rebuilt. *)
Example rebuild_both_slots :
  buildAuthHeaderFromCookie imports0 this0 overflowCookie bothSlots =
    ([CallUnsplit "security_authentication_saml";
      CallInflate [x02; x61; x01; x62; x00]],
     Ok {[ "authorization" := JsString "aab" ]}).
Proof. vm_compute. reflexivity. Qed.

(** Scenario E: the second extra cookie is missing, the rest does not
    decompress, and the request goes on without the header. *)
Example rebuild_second_slot_missing :
  buildAuthHeaderFromCookie imports0 this0 overflowCookie secondSlotMissing =
    ([CallUnsplit "security_authentication_saml";
      CallInflate [x02; x61; x01];
      LogError DecodeError],
     Ok ∅).
Proof. vm_compute. reflexivity. Qed.

(** A zero expiryTime is not set for the validator. *)
Example zero_expiry_rejected :
  isValidCookie imports0
    {| username := JsString "admin";
       credentials := credentials inlineCookie;
       authType := JsString "saml";
       expiryTime := JsNumber 0 |} = JsNumber 0.
Proof. reflexivity. Qed.

Example inline_cookie_value :
  isValidCookie imports0 inlineCookie = JsString "Bearer abc".
Proof. reflexivity. Qed.

Example escape_reserved :
  QueryString.escape "/a b?c=d&e~(f)'" = "%2Fa%20b%3Fc%3Dd%26e~(f)'".
Proof. reflexivity. Qed.

Example inflate_malformed :
  Compression.inflateValue [x00; x61] = Err DecodeError
  /\ Compression.inflateValue [x03] = Err DecodeError.
Proof. split; reflexivity. Qed.

Example split_then_join :
  CookieSplitter.split "AmEBYg==" 4 2 = [Some "AmEB"; Some "Yg=="]
  /\ CookieSplitter.join (CookieSplitter.split "AmEBYg==" 4 2) = Ok "AmEBYg==".
Proof. split; reflexivity. Qed.


(** * Further properties of the class *)

(** ** Runs of the header reconstruction *)

(** The events of the [try] block: the joiner is called first, the
    decompressor only on what was joined and decoded. *)
Lemma reconstruct_trace imports this request :
  trace (reconstruct imports this request) =
    CallUnsplit (extraCookieName this) ::
      match unsplitCookiesIntoValue imports request (extraCookieName this) with
      | Ok text =>
          match Buffer_from_base64 imports text with
          | Ok decoded => [CallInflate decoded]
          | Err _ => []
          end
      | Err _ => []
      end.
Proof.
  unfold reconstruct, call, bind, trace. cbv zeta.
  destruct (unsplitCookiesIntoValue imports request (extraCookieName this))
    as [text | e1]; simpl; [| reflexivity].
  destruct (Buffer_from_base64 imports text) as [decoded | e2]; simpl;
    [| reflexivity].
  destruct (inflateValue imports decoded) as [inflated | e3]; simpl;
    [| reflexivity].
  destruct (Buffer_toString imports inflated); reflexivity.
Qed.

Lemma reconstruct_never_logs imports this request e :
  ~ In (LogError e) (trace (reconstruct imports this request)).
Proof.
  rewrite reconstruct_trace.
  destruct (unsplitCookiesIntoValue imports request (extraCookieName this))
    as [text | e1]; simpl; [| intros [[=] | []]].
  destruct (Buffer_from_base64 imports text) as [decoded | e2]; simpl.
  - intros [[=] | [[=] | []]].
  - intros [[=] | []].
Qed.

Lemma buildAuthHeaderFromCookie_trace imports this cookie request :
  trace (buildAuthHeaderFromCookie imports this cookie request) =
    if truthy (credentials_field cookie authHeaderValueCompressed) then
      (trace (reconstruct imports this request) ++
         match outcome (reconstruct imports this request) with
         | Ok _ => []
         | Err e => [LogError e]
         end)%list
    else [].
Proof.
  destruct (truthy (credentials_field cookie authHeaderValueCompressed)) eqn:Hset.
  - rewrite buildAuthHeaderFromCookie_compressed by exact Hset.
    destruct (reconstruct imports this request) as [t [text | e]]; simpl;
      [rewrite app_nil_r |]; reflexivity.
  - unfold buildAuthHeaderFromCookie. rewrite Hset. reflexivity.
Qed.

(** X1.  When the compressed credential of the cookie is set and the
    reconstruction succeeds, the header map has the authorization header
    with the reconstructed text as its only entry, and the logger is not
    written to. *)
Theorem buildAuthHeaderFromCookie_success imports this cookie request text :
  truthy (credentials_field cookie authHeaderValueCompressed) = true ->
  outcome (reconstruct imports this request) = Ok text ->
  outcome (buildAuthHeaderFromCookie imports this cookie request)
    = Ok {[ "authorization" := JsString text ]}
  /\ forall e,
       ~ In (LogError e)
            (trace (buildAuthHeaderFromCookie imports this cookie request)).
Proof.
  intros Hset Hok. split.
  - rewrite buildAuthHeaderFromCookie_compressed by exact Hset.
    destruct (reconstruct imports this request) as [t r]. simpl in Hok.
    subst r. reflexivity.
  - intros e. rewrite buildAuthHeaderFromCookie_trace, Hset, Hok, app_nil_r.
    apply reconstruct_never_logs.
Qed.

(** X2.  The method writes an error to the logger exactly when the
    compressed credential is set and the reconstruction fails, and the
    error logged is the one that the reconstruction failed with. *)
Theorem buildAuthHeaderFromCookie_logs_iff imports this cookie request e :
  In (LogError e) (trace (buildAuthHeaderFromCookie imports this cookie request))
  <-> truthy (credentials_field cookie authHeaderValueCompressed) = true
      /\ outcome (reconstruct imports this request) = Err e.
Proof.
  rewrite buildAuthHeaderFromCookie_trace.
  destruct (truthy (credentials_field cookie authHeaderValueCompressed)).
  - rewrite in_app_iff.
    destruct (outcome (reconstruct imports this request)) as [text | e'] eqn:Hout.
    + split.
      * intros [Hin | []]. destruct (reconstruct_never_logs _ _ _ _ Hin).
      * intros [_ [=]].
    + split.
      * intros [Hin | [[= ->] | []]]; [| auto].
        destruct (reconstruct_never_logs _ _ _ _ Hin).
      * intros [_ [= ->]]. right. left. reflexivity.
  - split; [intros [] | intros [[=] _]].
Qed.

(** X3.  Once the compressed credential is set, the cookie has no further
    say: the header is rebuilt from the request alone.  Two cookies with
    the compressed credential set, whatever its bytes and whatever else
    the cookies hold, give the same run on the same request. *)
Theorem buildAuthHeaderFromCookie_reads_request_only
    imports this cookie cookie' request :
  truthy (credentials_field cookie authHeaderValueCompressed) = true ->
  truthy (credentials_field cookie' authHeaderValueCompressed) = true ->
  buildAuthHeaderFromCookie imports this cookie request
    = buildAuthHeaderFromCookie imports this cookie' request.
Proof.
  intros Hset Hset'.
  rewrite !buildAuthHeaderFromCookie_compressed by assumption. reflexivity.
Qed.

(** X4.  On every cookie and every request the method returns a header
    map, and the map holds no header other than authorization. *)
Theorem buildAuthHeaderFromCookie_only_authorization imports this cookie request :
  exists responseHeaders : gmap string JsValue,
    outcome (buildAuthHeaderFromCookie imports this cookie request)
      = Ok responseHeaders
    /\ forall name, name <> "authorization" -> responseHeaders !! name = None.
Proof.
  destruct (truthy (credentials_field cookie authHeaderValueCompressed)) eqn:Hset.
  - rewrite buildAuthHeaderFromCookie_compressed by exact Hset.
    destruct (reconstruct imports this request) as [t [text | e]];
      eexists; (split; [reflexivity |]); intros name Hname.
    + apply lookup_singleton_ne. intros Heq. apply Hname. symmetry. exact Heq.
    + apply lookup_empty.
  - unfold buildAuthHeaderFromCookie. rewrite Hset.
    eexists. split; [reflexivity |]. intros name Hname.
    rewrite lookup_insert_ne; [apply lookup_empty |].
    intros Heq. apply Hname. symmetry. exact Heq.
Qed.

(** X5.  The decompressor is called only on the base64 decoding of what
    the joiner returned, and the joiner is called exactly when the
    compressed credential is set, under the name of the extra cookies. *)
Theorem buildAuthHeaderFromCookie_call_order imports this cookie request :
  (forall decoded,
     In (CallInflate decoded)
        (trace (buildAuthHeaderFromCookie imports this cookie request)) ->
     exists text,
       unsplitCookiesIntoValue imports request (extraCookieName this) = Ok text
       /\ Buffer_from_base64 imports text = Ok decoded)
  /\ (forall name,
        In (CallUnsplit name)
           (trace (buildAuthHeaderFromCookie imports this cookie request))
        <-> truthy (credentials_field cookie authHeaderValueCompressed) = true
            /\ name = extraCookieName this).
Proof.
  rewrite buildAuthHeaderFromCookie_trace, reconstruct_trace.
  destruct (truthy (credentials_field cookie authHeaderValueCompressed)).
  2: { split; [intros decoded [] | intros name; split; [intros [] | intros [[=] _]]]. }
  assert (Htail : forall ev,
    In ev (match outcome (reconstruct imports this request) with
           | Ok _ => []
           | Err e => [LogError e]
           end) -> exists e, ev = LogError e).
  { intros ev. destruct (outcome (reconstruct imports this request));
      [intros [] | intros [<- | []]; eauto]. }
  split.
  - intros decoded [[[=] | Hin] | Hin]%in_app_iff.
    + destruct (unsplitCookiesIntoValue imports request (extraCookieName this))
        as [text | e1]; [| destruct Hin].
      destruct (Buffer_from_base64 imports text) as [d | e2] eqn:Hdecode;
        [| destruct Hin].
      destruct Hin as [[= ->] | []]. eauto.
    + apply Htail in Hin as [e [=]].
  - intros name. split.
    + intros [[[= ->] | Hin] | Hin]%in_app_iff; [auto | |].
      * destruct (unsplitCookiesIntoValue imports request (extraCookieName this))
          as [text | e1]; [| destruct Hin].
        destruct (Buffer_from_base64 imports text) as [d | e2]; [| destruct Hin].
        destruct Hin as [[=] | []].
      * apply Htail in Hin as [e [=]].
    + intros [_ ->]. apply in_app_iff. left. left. reflexivity.
Qed.

(** ** Runs of the cookie factory *)

Lemma getCookie_unfold imports this request authInfo now :
  getCookie imports this request authInfo now =
    let header := js_of_option_string (headers request !! AUTH_HEADER_NAME) in
    ([CallDeflate header],
     match deflateValue imports header with
     | Ok compressed =>
         Ok {| username := user_name authInfo;
               credentials :=
                 Some {| authHeaderValue := JsUndefined;
                         authHeaderValueCompressed := JsBuffer compressed |};
               authType := JsString (AuthType_SAML imports);
               expiryTime :=
                 JsNumber (round_to_double (now + session_ttl (config this))) |}
     | Err e => Err e
     end).
Proof.
  unfold getCookie, call, bind. cbv zeta.
  destruct (deflateValue imports _); reflexivity.
Qed.

(** X6.  The factory does not guard the compressor.  Without an
    authorization header it hands [undefined] to the compressor, and an
    error thrown by the compressor leaves the factory as it is: no cookie
    is created and nothing is caught. *)
Theorem getCookie_propagates_error imports this request authInfo now :
  (headers request !! "authorization" = None ->
   trace (getCookie imports this request authInfo now) = [CallDeflate JsUndefined])
  /\ (forall e,
        deflateValue imports
          (js_of_option_string (headers request !! "authorization")) = Err e ->
        outcome (getCookie imports this request authInfo now) = Err e).
Proof.
  rewrite getCookie_unfold. cbv zeta. split.
  - intros Hnone. change AUTH_HEADER_NAME with "authorization".
    rewrite Hnone. reflexivity.
  - intros e Herr. change AUTH_HEADER_NAME with "authorization".
    rewrite Herr. reflexivity.
Qed.

(** X7.  A request includes authentication information exactly when it
    has a non-empty authorization header: an empty header counts as none.
    For such a request the factory hands the header text to the
    compressor. *)
Theorem requestIncludesAuthInfo_iff imports this request authInfo now :
  (requestIncludesAuthInfo request = true <->
     exists credential,
       headers request !! "authorization" = Some credential
       /\ credential <> EmptyString)
  /\ (requestIncludesAuthInfo request = true ->
      exists credential,
        headers request !! "authorization" = Some credential
        /\ credential <> EmptyString
        /\ trace (getCookie imports this request authInfo now)
             = [CallDeflate (JsString credential)]).
Proof.
  assert (Hiff : requestIncludesAuthInfo request = true <->
     exists credential,
       headers request !! "authorization" = Some credential
       /\ credential <> EmptyString).
  { unfold requestIncludesAuthInfo. change AUTH_HEADER_NAME with "authorization".
    destruct (headers request !! "authorization") as [h |]; simpl.
    - destruct h as [| c rest]; simpl.
      + split; [discriminate | intros (h & [= <-] & Hne); congruence].
      + split; [intros _; eexists; split; [reflexivity | discriminate] | reflexivity].
    - split; [discriminate | intros (h & [=] & _)]. }
  split; [exact Hiff |].
  intros (credential & Hheader & Hne)%Hiff. exists credential.
  split; [exact Hheader |]. split; [exact Hne |].
  rewrite getCookie_unfold. cbv zeta. change AUTH_HEADER_NAME with "authorization".
  rewrite Hheader. reflexivity.
Qed.

(** X8.  What the validator resolves to.  For a cookie of another
    authentication type it is the boolean [false], whatever else the
    cookie holds.  For an accepted cookie it is the credential itself:
    the inline one when that is populated, the compressed one otherwise. *)
Theorem isValidCookie_result imports cookie :
  (authType cookie <> JsString (AuthType_SAML imports) ->
   isValidCookie imports cookie = JsBoolean false)
  /\ (accepts imports cookie = true ->
      (truthy (credentials_field cookie authHeaderValue) = true ->
       isValidCookie imports cookie = credentials_field cookie authHeaderValue)
      /\ (truthy (credentials_field cookie authHeaderValue) = false ->
          isValidCookie imports cookie
            = credentials_field cookie authHeaderValueCompressed)).
Proof.
  split.
  - intros Htag. unfold isValidCookie.
    destruct (js_strict_eq_string (authType cookie) (AuthType_SAML imports)) eqn:E.
    + apply js_strict_eq_string_spec in E. contradiction.
    + reflexivity.
  - intros Hacc. rewrite (isValidCookie_value _ _ Hacc). unfold js_or.
    split; intros ->; reflexivity.
Qed.

(** X9.  The validator accepts the cookie that the factory has just
    created exactly when the user name is non-empty and the expiry time,
    the time of creation plus the session TTL, is not zero.  So the
    factory creates a cookie for an empty user name, and the validator
    rejects it. *)
Theorem getCookie_accepted_iff imports this request authInfo now events cookie :
  getCookie imports this request authInfo now = (events, Ok cookie) ->
  accepts imports cookie
    = truthy (user_name authInfo) && negb (now + session_ttl (config this) =? 0).
Proof.
  rewrite getCookie_unfold. cbv zeta.
  destruct (deflateValue imports _) as [compressed | e]; [| discriminate].
  intros [= _ <-]. apply accepts_fresh_cookie.
Qed.

(** The decompressor sees what was decoded from the extra cookies of the
    request, and nothing else. *)
Lemma inflate_call_from_request imports this cookie request decoded :
  In (CallInflate decoded)
     (trace (buildAuthHeaderFromCookie imports this cookie request)) ->
  exists text,
    unsplitCookiesIntoValue imports request (extraCookieName this) = Ok text
    /\ Buffer_from_base64 imports text = Ok decoded.
Proof.
  rewrite buildAuthHeaderFromCookie_trace, reconstruct_trace.
  destruct (truthy (credentials_field cookie authHeaderValueCompressed));
    [| intros []].
  intros [[[=] | Hin] | Hin]%in_app_iff.
  - destruct (unsplitCookiesIntoValue imports request (extraCookieName this))
      as [text | e1]; [| destruct Hin].
    destruct (Buffer_from_base64 imports text) as [d | e2] eqn:Hdecode;
      [| destruct Hin].
    destruct Hin as [[= ->] | []]. eauto.
  - destruct (outcome (reconstruct imports this request));
      [destruct Hin | destruct Hin as [[=] | []]].
Qed.

Lemma fresh_cookie_compressed_set imports this request authInfo now events cookie :
  getCookie imports this request authInfo now = (events, Ok cookie) ->
  truthy (credentials_field cookie authHeaderValueCompressed) = true.
Proof.
  rewrite getCookie_unfold. cbv zeta.
  destruct (deflateValue imports _) as [compressed | e]; [| discriminate].
  intros [= _ <-]. reflexivity.
Qed.

(** X10.  The compressed bytes that the factory stores in the cookie are
    never decompressed.  For a cookie of the factory the header is
    rebuilt from the extra cookies of the later request: the joiner is
    called, the header is the reconstructed text when the reconstruction
    succeeds, and there is no header when it fails.  Whatever the
    decompressor is called on was decoded from the joined extra cookies of
    that request, and the run is the same for every cookie of the factory,
    whichever credential it was created from. *)
Theorem fresh_cookie_rebuilds_from_request
    imports this request authInfo now events cookie later :
  getCookie imports this request authInfo now = (events, Ok cookie) ->
  In (CallUnsplit (extraCookieName this))
     (trace (buildAuthHeaderFromCookie imports this cookie later))
  /\ (forall text,
        outcome (reconstruct imports this later) = Ok text ->
        outcome (buildAuthHeaderFromCookie imports this cookie later)
          = Ok {[ "authorization" := JsString text ]})
  /\ (forall e,
        outcome (reconstruct imports this later) = Err e ->
        outcome (buildAuthHeaderFromCookie imports this cookie later) = Ok ∅)
  /\ (forall decoded,
        In (CallInflate decoded)
           (trace (buildAuthHeaderFromCookie imports this cookie later)) ->
        exists text,
          unsplitCookiesIntoValue imports later (extraCookieName this) = Ok text
          /\ Buffer_from_base64 imports text = Ok decoded)
  /\ (forall request' authInfo' now' events' cookie',
        getCookie imports this request' authInfo' now' = (events', Ok cookie') ->
        buildAuthHeaderFromCookie imports this cookie' later
          = buildAuthHeaderFromCookie imports this cookie later).
Proof.
  intros Hset%fresh_cookie_compressed_set.
  split; [| split; [| split; [| split]]].
  - rewrite buildAuthHeaderFromCookie_trace, Hset.
    apply in_app_iff. left. rewrite reconstruct_trace. left. reflexivity.
  - intros text Hok.
    rewrite (buildAuthHeaderFromCookie_compressed _ _ _ _ Hset).
    destruct (reconstruct imports this later) as [t r].
    simpl in Hok. subst r. reflexivity.
  - intros e Herr.
    rewrite (buildAuthHeaderFromCookie_compressed _ _ _ _ Hset).
    destruct (reconstruct imports this later) as [t r].
    simpl in Herr. subst r. reflexivity.
  - intros decoded. apply inflate_call_from_request.
  - intros request' authInfo' now' events' cookie'
           Hset'%fresh_cookie_compressed_set.
    rewrite !buildAuthHeaderFromCookie_compressed by assumption. reflexivity.
Qed.

(** ** The names of the extra cookies *)

Lemma append_cons c s t : String c s +:+ t = String c (s +:+ t).
Proof. reflexivity. Qed.

Lemma append_assoc_text s t u : (s +:+ t) +:+ u = s +:+ t +:+ u.
Proof.
  induction s as [| c s IH]; [reflexivity |].
  rewrite !append_cons, IH. reflexivity.
Qed.

Lemma length_append_text s t :
  String.length (s +:+ t) = (String.length s + String.length t)%nat.
Proof.
  induction s as [| c s IH]; [reflexivity |].
  rewrite append_cons. simpl. rewrite IH. reflexivity.
Qed.

Lemma append_cancel_text s t u : s +:+ t = s +:+ u -> t = u.
Proof.
  induction s as [| c s IH]; [trivial |].
  rewrite !append_cons. intros [= H]. apply IH, H.
Qed.

(** X11.  The constructor registers two extra cookies under different
    names, both different from the name of the session cookie, and the
    header reconstruction asks the joiner for the cookies of exactly the
    base name, the name of the session cookie followed by [_saml], that
    these two were registered under. *)
Theorem constructor_extra_cookie_names cfg basePath :
  registeredStates (new_SamlAuthentication cfg basePath)
    = [cookie_name cfg +:+ "_saml" +:+ "_1"; cookie_name cfg +:+ "_saml" +:+ "_2"]
  /\ NoDup (registeredStates (new_SamlAuthentication cfg basePath))
  /\ ~ In (cookie_name cfg) (registeredStates (new_SamlAuthentication cfg basePath))
  /\ (forall imports cookie request name,
        In (CallUnsplit name)
           (trace (buildAuthHeaderFromCookie imports
                     (new_SamlAuthentication cfg basePath) cookie request)) ->
        name = cookie_name cfg +:+ "_saml").
Proof.
  split; [| split; [| split]].
  - unfold registeredStates. simpl extraCookieName.
    rewrite !append_assoc_text. reflexivity.
  - unfold registeredStates. apply NoDup_cons. split; [| apply NoDup_singleton].
    intros H%list_elem_of_singleton. apply append_cancel_text in H. discriminate.
  - unfold registeredStates. simpl extraCookieName.
    intros [H | [H | []]]; apply (f_equal String.length) in H;
      rewrite !length_append_text in H; simpl in H; lia.
  - intros imports cookie request name Hin.
    rewrite buildAuthHeaderFromCookie_trace in Hin.
    destruct (truthy (credentials_field cookie authHeaderValueCompressed));
      [| destruct Hin].
    apply in_app_iff in Hin as [Hin | Hin].
    + rewrite reconstruct_trace in Hin. destruct Hin as [[= <-] | Hin];
        [reflexivity |].
      destruct (unsplitCookiesIntoValue _ _ _) as [text | e1]; [| destruct Hin].
      destruct (Buffer_from_base64 _ _) as [d | e2]; [| destruct Hin].
      destruct Hin as [[=] | []].
    + destruct (outcome _); [destruct Hin | destruct Hin as [[=] | []]].
Qed.

(** ** The escaped target of the redirect *)

Lemma escape_cons c rest :
  QueryString.escape (String c rest) =
    (if QueryString.unreserved c then String c EmptyString
     else QueryString.percent c) +:+ QueryString.escape rest.
Proof. reflexivity. Qed.

Lemma escape_app s t :
  QueryString.escape (s +:+ t) = QueryString.escape s +:+ QueryString.escape t.
Proof.
  induction s as [| c s IH]; [reflexivity |].
  rewrite append_cons, !escape_cons, IH, append_assoc_text. reflexivity.
Qed.

Lemma hex_digit_unreserved k :
  (k < 16)%nat -> QueryString.unreserved (QueryString.hex_digit k) = true.
Proof.
  intros Hk.
  do 16 (destruct k as [| k]; [reflexivity |]). lia.
Qed.

Lemma percent_append c s :
  QueryString.percent c +:+ s =
    String "%"
      (String (QueryString.hex_digit (nat_of_ascii c / 16))
         (String (QueryString.hex_digit (nat_of_ascii c mod 16)) s)).
Proof. reflexivity. Qed.

Lemma nat_of_ascii_bound c : (nat_of_ascii c < 256)%nat.
Proof. apply nat_ascii_bounded. Qed.

Lemma escape_characters s :
  Forall (fun c => QueryString.unreserved c = true \/ c = "%"%char)
         (list_ascii_of_string (QueryString.escape s)).
Proof.
  induction s as [| c s IH]; [constructor |].
  rewrite escape_cons.
  destruct (QueryString.unreserved c) eqn:Hc.
  - rewrite append_cons. simpl. constructor; [left; exact Hc | exact IH].
  - rewrite percent_append.
    pose proof (nat_of_ascii_bound c) as Hb.
    assert (Hhigh : (nat_of_ascii c / 16 < 16)%nat)
      by (apply Nat.Div0.div_lt_upper_bound; lia).
    assert (Hlow : (nat_of_ascii c mod 16 < 16)%nat)
      by (apply Nat.mod_upper_bound; lia).
    cbn [list_ascii_of_string].
    constructor; [right; reflexivity |].
    constructor; [left; apply hex_digit_unreserved, Hhigh |].
    constructor; [left; apply hex_digit_unreserved, Hlow | exact IH].
Qed.

(** The escape of one character can be read back. *)
Lemma percent_inj c c' : QueryString.percent c = QueryString.percent c' -> c = c'.
Proof.
  set (unhex := fun a : ascii =>
    let n := nat_of_ascii a in if (n <? 58)%nat then (n - 48)%nat else (n - 55)%nat).
  set (back := fun s : string =>
    match s with
    | String _ (String h (String l _)) => ascii_of_nat (16 * unhex h + unhex l)
    | _ => zero
    end).
  assert (Hback : forall a, back (QueryString.percent a) = a).
  { intros [[] [] [] [] [] [] [] []]; reflexivity. }
  intros H. rewrite <- (Hback c), <- (Hback c'), H. reflexivity.
Qed.

Lemma percent_append_inj c c' s s' :
  QueryString.percent c +:+ s = QueryString.percent c' +:+ s' ->
  QueryString.percent c = QueryString.percent c' /\ s = s'.
Proof.
  unfold QueryString.percent. cbv zeta.
  generalize (QueryString.hex_digit (nat_of_ascii c / 16))
             (QueryString.hex_digit (nat_of_ascii c mod 16))
             (QueryString.hex_digit (nat_of_ascii c' / 16))
             (QueryString.hex_digit (nat_of_ascii c' mod 16)).
  intros h l h' l'. rewrite !append_cons.
  change (EmptyString +:+ s) with s. change (EmptyString +:+ s') with s'.
  intros [= -> -> ->]. split; reflexivity.
Qed.

Lemma escape_inj s s' : QueryString.escape s = QueryString.escape s' -> s = s'.
Proof.
  revert s'. induction s as [| c s IH]; intros [| c' s'].
  - reflexivity.
  - rewrite escape_cons. destruct (QueryString.unreserved c');
      [rewrite append_cons | rewrite percent_append]; discriminate.
  - rewrite escape_cons. destruct (QueryString.unreserved c);
      [rewrite append_cons | rewrite percent_append]; discriminate.
  - rewrite !escape_cons.
    destruct (QueryString.unreserved c) eqn:Hc,
             (QueryString.unreserved c') eqn:Hc';
      rewrite ?append_cons.
    + intros [= -> H]. f_equal. apply IH, H.
    + rewrite percent_append. intros [= -> _]. discriminate Hc.
    + rewrite percent_append. intros [= <- _]. discriminate Hc'.
    + intros [Hp H]%percent_append_inj. f_equal; [| apply IH, H].
      apply percent_inj, Hp.
Qed.

(** The digits of the escape are the upper-case hexadecimal ones. *)
Lemma hex_digit_table k :
  (k < 16)%nat ->
  String.get k "0123456789ABCDEF" = Some (QueryString.hex_digit k).
Proof.
  intros Hk. do 16 (destruct k as [| k]; [reflexivity |]). lia.
Qed.

(** The escape, character by character. *)
Lemma escape_foldr s :
  QueryString.escape s =
    foldr (fun c rest =>
             if QueryString.unreserved c then String c rest
             else String "%"
                    (String (QueryString.hex_digit (nat_of_ascii c / 16))
                       (String (QueryString.hex_digit (nat_of_ascii c mod 16))
                          rest)))
          EmptyString (list_ascii_of_string s).
Proof.
  induction s as [| c s IH]; [reflexivity |].
  rewrite escape_cons. cbn [list_ascii_of_string foldr]. rewrite <- IH.
  destruct (QueryString.unreserved c); [reflexivity | apply percent_append].
Qed.

(** Claim C6.  On a page request the [nextUrl] parameter of the redirect
    location is the escaped concatenation of the server base path and the
    path of the request; a request without a path is sent to the landing
    path [/app/opensearch-dashboards], whose escaped text is
    [%2Fapp%2Fopensearch-dashboards].  Escaped means: a letter, a digit
    and each of [- _ . ! ~ * ' ( )] stands for itself, every other
    character is replaced by a percent sign and the two upper-case
    hexadecimal digits of its code, so that no slash, question mark,
    ampersand, equals sign, hash or space is left in [nextUrl]. *)
Theorem redirect_nextUrl imports this request :
  isPageRequest imports request = true ->
  exists path nextUrl,
    handleUnauthedRequest imports this request =
      ToolkitRedirected
        {[ "set-cookie" := clearOldVersionCookieValue imports (config this);
           "location" := serverBasePath this
                           +:+ "/auth/saml/captureUrlFragment?nextUrl="
                           +:+ nextUrl ]}
    /\ (forall p, url_pathname request = Some p -> p <> EmptyString -> path = p)
    /\ (url_pathname request = None \/ url_pathname request = Some EmptyString ->
        path = "/app/opensearch-dashboards"
        /\ nextUrl = QueryString.escape (serverBasePath this)
                       +:+ "%2Fapp%2Fopensearch-dashboards")
    /\ nextUrl =
         foldr (fun c rest =>
                  if QueryString.unreserved c then String c rest
                  else String "%"
                         (String (QueryString.hex_digit (nat_of_ascii c / 16))
                            (String (QueryString.hex_digit (nat_of_ascii c mod 16))
                               rest)))
               EmptyString (list_ascii_of_string (serverBasePath this +:+ path))
    /\ (forall c,
          In c (list_ascii_of_string nextUrl) ->
          (QueryString.unreserved c = true \/ c = "%"%char)
          /\ ~ In c ["/"; "?"; "&"; "="; "#"; " "]%char).
Proof.
  intros Hpage.
  exists (or_default (url_pathname request) LANDING_PATH),
         (generateNextUrl this request).
  split; [| split; [| split; [| split]]].
  - unfold handleUnauthedRequest. rewrite Hpage. apply redirect_location.
  - intros p -> Hp. apply or_default_present, Hp.
  - intros Habsent. split; [apply or_default_absent, Habsent |].
    unfold generateNextUrl. cbv zeta.
    rewrite (or_default_absent _ _ Habsent), escape_app. reflexivity.
  - unfold generateNextUrl. cbv zeta. apply escape_foldr.
  - intros c Hin. unfold generateNextUrl in Hin. cbv zeta in Hin.
    pose proof (escape_characters
      (serverBasePath this +:+ or_default (url_pathname request) LANDING_PATH))
      as Hall.
    rewrite Forall_forall in Hall.
    specialize (Hall c (proj2 (list_elem_of_In _ _) Hin)).
    split; [exact Hall |].
    intros Hbad. simpl in Hbad.
    destruct Hall as [Hc | ->].
    + repeat (destruct Hbad as [<- | Hbad]; [discriminate Hc |]). destruct Hbad.
    + repeat (destruct Hbad as [[=] | Hbad]). destruct Hbad.
Qed.

Lemma redirect_nextUrl_witness :
  isPageRequest imports0 noPath = true
  /\ handleUnauthedRequest imports0 this0 noPath =
       ToolkitRedirected
         {[ "set-cookie" := clearOld0;
            "location" :=
              "/osd/auth/saml/captureUrlFragment?nextUrl=%2Fosd%2Fapp%2Fopensearch-dashboards" ]}.
Proof.
  split; [reflexivity |].
  destruct (redirect_nextUrl imports0 this0 noPath eq_refl)
    as (path & nextUrl & Hredirect & _ & Hlanding & _).
  destruct (Hlanding (or_introl eq_refl)) as [_ ->].
  exact Hredirect.
Defined.

(** A path with a space and a byte beyond ASCII. *)
Example redirect_escaped_path :
  handleUnauthedRequest imports0 this0
    {| headers := ∅; url_pathname := Some "/app/data explorer/é"; state := ∅ |} =
    ToolkitRedirected
      {[ "set-cookie" := clearOld0;
         "location" :=
           "/osd/auth/saml/captureUrlFragment?nextUrl=%2Fosd%2Fapp%2Fdata%20explorer%2F%C3%A9" ]}.
Proof. reflexivity. Qed.

(** X12.  The [nextUrl] of the redirect is made of the characters that
    [querystring.escape] leaves alone and of the percent sign: it holds no
    ampersand, equals sign, question mark, hash, slash, plus or space, so
    the path of the request cannot add a parameter or a fragment to the
    location. *)
Theorem generateNextUrl_characters this request c :
  In c (list_ascii_of_string (generateNextUrl this request)) ->
  (QueryString.unreserved c = true \/ c = "%"%char)
  /\ ~ In c ["&"; "="; "?"; "#"; "/"; "+"; " "]%char.
Proof.
  intros Hin. unfold generateNextUrl in Hin. cbv zeta in Hin.
  pose proof (escape_characters
    (serverBasePath this +:+ or_default (url_pathname request) LANDING_PATH)) as Hall.
  rewrite Forall_forall in Hall.
  specialize (Hall c (proj2 (list_elem_of_In _ _) Hin)).
  split; [exact Hall |].
  intros Hbad. simpl in Hbad.
  destruct Hall as [Hc | ->].
  - repeat (destruct Hbad as [<- | Hbad]; [discriminate Hc |]). destruct Hbad.
  - repeat (destruct Hbad as [[=] | Hbad]). destruct Hbad.
Qed.

(** X13.  Two requests to one server get the same [nextUrl] exactly when
    their paths, the landing path standing in for a missing one, are the
    same: the target of the redirect determines the path that was asked
    for. *)
Theorem generateNextUrl_injective this request request' :
  generateNextUrl this request = generateNextUrl this request'
  <-> or_default (url_pathname request) "/app/opensearch-dashboards"
      = or_default (url_pathname request') "/app/opensearch-dashboards".
Proof.
  unfold generateNextUrl. cbv zeta. change LANDING_PATH with "/app/opensearch-dashboards".
  split.
  - intros H. apply escape_inj in H. apply append_cancel_text in H. exact H.
  - intros ->. reflexivity.
Qed.

(** X14.  In the location of the redirect the server base path stands
    twice: as it is in front of the capture endpoint, and escaped at the
    head of [nextUrl], in front of the escaped path of the request. *)
Theorem redirect_location_structure imports this request :
  isPageRequest imports request = true ->
  exists responseHeaders,
    handleUnauthedRequest imports this request = ToolkitRedirected responseHeaders
    /\ responseHeaders !! "location" =
         Some (serverBasePath this
                 +:+ "/auth/saml/captureUrlFragment?nextUrl="
                 +:+ QueryString.escape (serverBasePath this)
                 +:+ QueryString.escape
                       (or_default (url_pathname request) "/app/opensearch-dashboards")).
Proof.
  intros Hpage. unfold handleUnauthedRequest. rewrite Hpage.
  rewrite redirect_location. eexists. split; [reflexivity |].
  rewrite lookup_insert_ne by discriminate.
  rewrite lookup_singleton_eq. unfold generateNextUrl. cbv zeta.
  rewrite escape_app. reflexivity.
Qed.

(** ** The validator in front of the header reconstruction *)


(** * Scenarios of the further properties *)

Lemma buildAuthHeaderFromCookie_success_witness :
  outcome (buildAuthHeaderFromCookie imports0 this0 overflowCookie bothSlots)
    = Ok {[ "authorization" := JsString "aab" ]}.
Proof.
  apply (buildAuthHeaderFromCookie_success imports0 this0 overflowCookie
           bothSlots "aab"); vm_compute; reflexivity.
Defined.

Lemma buildAuthHeaderFromCookie_logs_iff_witness :
  In (LogError DecodeError)
     (trace (buildAuthHeaderFromCookie imports0 this0 overflowCookie
               secondSlotMissing)).
Proof.
  apply (proj2 (buildAuthHeaderFromCookie_logs_iff imports0 this0 overflowCookie
                  secondSlotMissing DecodeError)).
  split; vm_compute; reflexivity.
Defined.

Lemma buildAuthHeaderFromCookie_reads_request_only_witness :
  buildAuthHeaderFromCookie imports0 this0 overflowCookie bothSlots
    = buildAuthHeaderFromCookie imports0 this0
        {| username := JsString "eve";
           credentials := Some {| authHeaderValue := JsString "Bearer xyz";
                                  authHeaderValueCompressed := JsBuffer [x09; x7a] |};
           authType := JsString "basicauth";
           expiryTime := JsNumber 1 |}
        bothSlots.
Proof.
  apply (buildAuthHeaderFromCookie_reads_request_only imports0 this0);
    reflexivity.
Defined.

Lemma buildAuthHeaderFromCookie_call_order_witness :
  exists text,
    unsplitCookiesIntoValue imports0 bothSlots (extraCookieName this0) = Ok text
    /\ Buffer_from_base64 imports0 text = Ok [x02; x61; x01; x62; x00].
Proof.
  apply (proj1 (buildAuthHeaderFromCookie_call_order imports0 this0
                  overflowCookie bothSlots)).
  vm_compute. right. left. reflexivity.
Defined.

Lemma getCookie_propagates_error_witness :
  trace (getCookie imports0 this0 noPath admin now0) = [CallDeflate JsUndefined]
  /\ outcome (getCookie imports0 this0 noPath admin now0)
       = Err (TypeError "The first argument must be of type string").
Proof.
  split.
  - apply (proj1 (getCookie_propagates_error imports0 this0 noPath admin now0)).
    reflexivity.
  - apply (proj2 (getCookie_propagates_error imports0 this0 noPath admin now0)).
    reflexivity.
Defined.

Lemma requestIncludesAuthInfo_iff_witness :
  requestIncludesAuthInfo login50 = true
  /\ exists credential,
       headers login50 !! "authorization" = Some credential
       /\ credential <> EmptyString
       /\ trace (getCookie imports0 this0 login50 admin now0)
            = [CallDeflate (JsString credential)].
Proof.
  split; [reflexivity |].
  apply (proj2 (requestIncludesAuthInfo_iff imports0 this0 login50 admin now0)).
  reflexivity.
Defined.

Lemma isValidCookie_result_witness :
  isValidCookie imports0
    {| username := JsString "admin";
       credentials := credentials inlineCookie;
       authType := JsString "basicauth";
       expiryTime := expiryTime inlineCookie |} = JsBoolean false
  /\ isValidCookie imports0 inlineCookie = JsString "Bearer abc".
Proof.
  split.
  - apply (proj1 (isValidCookie_result imports0 _)). discriminate.
  - apply (proj1 (proj2 (isValidCookie_result imports0 inlineCookie) eq_refl)).
    reflexivity.
Defined.

Lemma getCookie_accepted_iff_witness :
  exists events cookie,
    getCookie imports0 this0 login50
      {| user_name := JsString EmptyString |} now0 = (events, Ok cookie)
    /\ accepts imports0 cookie = false.
Proof.
  do 2 eexists. split; [vm_compute; reflexivity |].
  exact (getCookie_accepted_iff imports0 this0 login50
           {| user_name := JsString EmptyString |} now0 _ _ eq_refl).
Defined.

Lemma fresh_cookie_rebuilds_from_request_witness :
  exists events cookie,
    getCookie imports0 this0 login50 admin now0 = (events, Ok cookie)
    /\ outcome (buildAuthHeaderFromCookie imports0 this0 cookie bothSlots)
         = Ok {[ "authorization" := JsString "aab" ]}
    /\ outcome (buildAuthHeaderFromCookie imports0 this0 cookie firstSlotMissing)
         = Ok ∅.
Proof.
  do 2 eexists. split; [vm_compute; reflexivity |]. split.
  - apply (proj1 (proj2 (fresh_cookie_rebuilds_from_request imports0 this0
                           login50 admin now0 _ _ bothSlots eq_refl))).
    vm_compute. reflexivity.
  - apply (proj1 (proj2 (proj2 (fresh_cookie_rebuilds_from_request imports0
                                  this0 login50 admin now0 _ _ firstSlotMissing
                                  eq_refl)))
             CorruptFragmentSequence).
    vm_compute. reflexivity.
Defined.

Lemma constructor_extra_cookie_names_witness :
  registeredStates this0
    = ["security_authentication_saml_1"; "security_authentication_saml_2"]
  /\ forall name,
       In (CallUnsplit name)
          (trace (buildAuthHeaderFromCookie imports0 this0 overflowCookie bothSlots)) ->
       name = "security_authentication_saml".
Proof.
  split.
  - apply (proj1 (constructor_extra_cookie_names config0 "/osd")).
  - apply (proj2 (proj2 (proj2 (constructor_extra_cookie_names config0 "/osd")))).
Defined.

Lemma generateNextUrl_characters_witness :
  In "%"%char (list_ascii_of_string (generateNextUrl this0 noPath))
  /\ ~ In "%"%char ["&"; "="; "?"; "#"; "/"; "+"; " "]%char.
Proof.
  assert (Hin : In "%"%char (list_ascii_of_string (generateNextUrl this0 noPath)))
    by (left; reflexivity).
  split; [exact Hin |].
  apply (proj2 (generateNextUrl_characters this0 noPath "%"%char Hin)).
Defined.

Lemma redirect_location_structure_witness :
  exists responseHeaders,
    handleUnauthedRequest imports0 this0 login50 = ToolkitRedirected responseHeaders
    /\ responseHeaders !! "location" =
         Some "/osd/auth/saml/captureUrlFragment?nextUrl=%2Fosd%2Fapp%2Fhome".
Proof.
  apply (redirect_location_structure imports0 this0 login50). reflexivity.
Defined.


Lemma buildAuthHeaderFromCookie_only_authorization_witness :
  exists responseHeaders : gmap string JsValue,
    outcome (buildAuthHeaderFromCookie imports0 this0 overflowCookie bothSlots)
      = Ok responseHeaders
    /\ responseHeaders !! "cookie" = None.
Proof.
  destruct (buildAuthHeaderFromCookie_only_authorization imports0 this0
              overflowCookie bothSlots) as (responseHeaders & Hout & Honly).
  exists responseHeaders. split; [exact Hout |].
  apply Honly. discriminate.
Defined.

Lemma generateNextUrl_injective_witness :
  generateNextUrl this0 noPath
    = generateNextUrl this0
        {| headers := ∅;
           url_pathname := Some "/app/opensearch-dashboards";
           state := ∅ |}.
Proof.
  apply (proj2 (generateNextUrl_injective this0 noPath _)). reflexivity.
Defined.


Example toString_utf8 :
  NodeBuffer.toString [x41; xff; x42] = Ok (string_of_list_byte [x41; xef; xbf; xbd; x42])
  /\ NodeBuffer.toString [xc3; xa9] = Ok (string_of_list_byte [xc3; xa9])
  /\ NodeBuffer.toString [xe2; x82] = Ok (string_of_list_byte [xef; xbf; xbd])
  /\ NodeBuffer.toString [xe2; x82; x41] = Ok (string_of_list_byte [xef; xbf; xbd; x41])
  /\ NodeBuffer.toString [xe2; x82; xac] = Ok (string_of_list_byte [xe2; x82; xac])
  /\ NodeBuffer.toString [xc0; x80]
       = Ok (string_of_list_byte [xef; xbf; xbd; xef; xbf; xbd])
  /\ NodeBuffer.toString [xed; xa0; x80]
       = Ok (string_of_list_byte [xef; xbf; xbd; xef; xbf; xbd; xef; xbf; xbd])
  /\ NodeBuffer.toString [xf0; x9f; x98; x80]
       = Ok (string_of_list_byte [xf0; x9f; x98; x80])
  /\ NodeBuffer.toString [xf0; x9f; xc3; xa9]
       = Ok (string_of_list_byte [xef; xbf; xbd; xc3; xa9]).
Proof. repeat split. Qed.

(** A compressed credential that is cut between two pairs lacks its
    closing byte. *)
Example inflate_cut_stream :
  Compression.deflateValue (NodeBuffer.from_string "aab") = [x02; x61; x01; x62; x00]
  /\ Compression.inflateValue [x02; x61; x01; x62] = Err DecodeError
  /\ Compression.inflateValue [x02; x61] = Err DecodeError
  /\ Compression.inflateValue [x02; x61; x01; x62; x00; x00] = Err DecodeError.
Proof. repeat split. Qed.
